(** * DIU transport schedule: the schedule parser, the time normaliser and
      the route filter of [scripts.js], embedded and verified.

    The embedding follows [scripts.js] function by function:
    - JavaScript strings are [string]s whose characters stand for the code
      units below 256;
    - JavaScript numbers are IEEE 754 binary64 values ([spec_float] with
      precision 53 and maximal exponent 1024);
    - a spreadsheet cell is a tagged value: missing, text or number;
    - the route objects the parser allocates live in a store indexed by
      allocation order, so that [current] and the two partitions hold
      references to the same objects. *)

From Stdlib Require Import ZArith QArith Qround Lia Bool Ascii String List SpecFloat.
From stdpp Require Import base list.
Import ListNotations.

Local Open Scope string_scope.
Local Open Scope Z_scope.
Local Open Scope list_scope.

(** ** Strings *)

Module Str.

Definition code (c : ascii) : N := N_of_ascii c.

(** The class [\s] of a regular expression and the characters [trim]
    strips coincide; below 256 they are TAB, LF, VT, FF, CR, SP, NBSP. *)
Definition is_space (c : ascii) : bool :=
  let n := code c in
  ((9 <=? n) && (n <=? 13) || (n =? 32) || (n =? 160))%N.

Definition is_digit (c : ascii) : bool :=
  let n := code c in ((48 <=? n) && (n <=? 57))%N.

(** [toUpperCase] on the ASCII letters.  The source applies it only to a
    string the H:MM pattern has accepted. *)
Definition upper (c : ascii) : ascii :=
  let n := code c in
  if ((97 <=? n) && (n <=? 122))%N then ascii_of_N (n - 32) else c.

(** [toLowerCase] below 256: A-Z and the accented capitals except the
    multiplication sign move up by 32. *)
Definition lower (c : ascii) : ascii :=
  let n := code c in
  if ((65 <=? n) && (n <=? 90) || (192 <=? n) && (n <=? 222) && negb (n =? 215))%N
  then ascii_of_N (n + 32) else c.

Fixpoint map (f : ascii -> ascii) (s : string) : string :=
  match s with
  | EmptyString => EmptyString
  | String c s' => String (f c) (map f s')
  end.

Definition toUpperCase : string -> string := map upper.
Definition toLowerCase : string -> string := map lower.

Fixpoint forallb (p : ascii -> bool) (s : string) : bool :=
  match s with
  | EmptyString => true
  | String c s' => p c && forallb p s'
  end.

Definition is_empty (s : string) : bool :=
  match s with EmptyString => true | _ => false end.

(** [s.trim()] *)
Fixpoint trimStart (s : string) : string :=
  match s with
  | String c s' => if is_space c then trimStart s' else s
  | EmptyString => EmptyString
  end.

Fixpoint trimEnd (s : string) : string :=
  match s with
  | EmptyString => EmptyString
  | String c s' =>
      let r := trimEnd s' in
      if is_space c && is_empty r then EmptyString else String c r
  end.

Definition trim (s : string) : string := trimEnd (trimStart s).

(** [s.replace(/\s+/g, " ")]: [inrun] tells that the previous character
    belonged to the run of blanks being replaced. *)
Fixpoint collapse_from (inrun : bool) (s : string) : string :=
  match s with
  | EmptyString => EmptyString
  | String c s' =>
      if is_space c
      then (if inrun then collapse_from true s'
            else String " " (collapse_from true s'))
      else String c (collapse_from false s')
  end.

Definition collapse : string -> string := collapse_from false.

(** [parts.join(sep)] *)
Fixpoint join (sep : string) (parts : list string) : string :=
  match parts with
  | [] => ""
  | [p] => p
  | p :: rest => p ++ sep ++ join sep rest
  end.

(** [hay.includes(needle)] *)
Fixpoint includes (hay needle : string) : bool :=
  String.prefix needle hay
  || match hay with
     | EmptyString => false
     | String _ hay' => includes hay' needle
     end.

(** [s.startsWith(p)] *)
Definition startsWith (s p : string) : bool := String.prefix p s.

(** The characters before the first occurrence of [c]. *)
Fixpoint before (c : ascii) (s : string) : string :=
  match s with
  | EmptyString => EmptyString
  | String x s' => if Ascii.eqb x c then EmptyString else String x (before c s')
  end.

Fixpoint repeat (c : ascii) (n : nat) : string :=
  match n with O => "" | S n' => String c (repeat c n') end.

(** [s.padStart(n, "0")] *)
Definition padStart0 (n : nat) (s : string) : string :=
  repeat "0" (n - String.length s) ++ s.

(** Decimal digits of a natural number, most significant first. *)
Fixpoint digits_fuel (fuel : nat) (n : N) (acc : string) : string :=
  match fuel with
  | O => acc
  | S fuel' =>
      let acc' := String (ascii_of_N (48 + n mod 10)) acc in
      if (n <? 10)%N then acc' else digits_fuel fuel' (n / 10) acc'
  end.

Definition of_N (n : N) : string := digits_fuel (S (N.to_nat (N.log2 n))) n "".

(** The decimal rendering of an integer, as [Number::toString] gives it
    for an integer-valued number below 10^21. *)
Definition of_Z (z : Z) : string :=
  match z with
  | Z0 => "0"
  | Zpos p => of_N (Npos p)
  | Zneg p => String "-" (of_N (Npos p))
  end.

End Str.

(** ** Regular expressions

    The patterns of [scripts.js] are written as regular expressions over
    character classes and run by derivatives.  [matches] is a pattern
    anchored at both ends ([^...$]), [matches_prefix] one anchored at the
    start ([^...]) and [search] an unanchored one, as [RegExp.prototype.test]
    treats them. *)

Module Regex.

Inductive t : Type :=
| Void
| Eps
| Chr (p : ascii -> bool)
| Cat (r1 r2 : t)
| Alt (r1 r2 : t)
| Star (r : t).

Fixpoint nullable (r : t) : bool :=
  match r with
  | Void => false
  | Eps => true
  | Chr _ => false
  | Cat r1 r2 => nullable r1 && nullable r2
  | Alt r1 r2 => nullable r1 || nullable r2
  | Star _ => true
  end.

Fixpoint deriv (c : ascii) (r : t) : t :=
  match r with
  | Void => Void
  | Eps => Void
  | Chr p => if p c then Eps else Void
  | Cat r1 r2 =>
      if nullable r1
      then Alt (Cat (deriv c r1) r2) (deriv c r2)
      else Cat (deriv c r1) r2
  | Alt r1 r2 => Alt (deriv c r1) (deriv c r2)
  | Star r1 => Cat (deriv c r1) (Star r1)
  end.

Fixpoint matches (r : t) (s : string) : bool :=
  match s with
  | EmptyString => nullable r
  | String c s' => matches (deriv c r) s'
  end.

Fixpoint matches_prefix (r : t) (s : string) : bool :=
  nullable r
  || match s with
     | EmptyString => false
     | String c s' => matches_prefix (deriv c r) s'
     end.

Fixpoint search (r : t) (s : string) : bool :=
  matches_prefix r s
  || match s with
     | EmptyString => false
     | String _ s' => search r s'
     end.

(** The words a regular expression denotes. *)
Inductive lang : t -> string -> Prop :=
| lang_eps : lang Eps ""
| lang_chr p c : p c = true -> lang (Chr p) (String c "")
| lang_cat r1 r2 s1 s2 : lang r1 s1 -> lang r2 s2 -> lang (Cat r1 r2) (s1 ++ s2)
| lang_alt_l r1 r2 s : lang r1 s -> lang (Alt r1 r2) s
| lang_alt_r r1 r2 s : lang r2 s -> lang (Alt r1 r2) s
| lang_star_nil r : lang (Star r) ""
| lang_star_cons r s1 s2 : lang r s1 -> lang (Star r) s2 -> lang (Star r) (s1 ++ s2).

(** Pattern syntax. *)
Definition chr (c : ascii) : t := Chr (Ascii.eqb c).

(** A letter under the [i] flag: both sides are compared upper-cased. *)
Definition ci (c : ascii) : t := Chr (fun x => Ascii.eqb (Str.upper x) (Str.upper c)).

Definition digit : t := Chr Str.is_digit.
Definition space : t := Chr Str.is_space.
Definition opt (r : t) : t := Alt r Eps.
Definition plus (r : t) : t := Cat r (Star r).

Fixpoint seq (rs : list t) : t :=
  match rs with
  | [] => Eps
  | [r] => r
  | r :: rs' => Cat r (seq rs')
  end.

(** A literal word under the [i] flag. *)
Fixpoint word (s : string) : t :=
  match s with
  | EmptyString => Eps
  | String c EmptyString => ci c
  | String c s' => Cat (ci c) (word s')
  end.

End Regex.

(** ** Numbers

    A JavaScript number is a binary64 value.  Products, differences and
    quotients round to nearest, ties to even, as [SpecFloat] specifies;
    comparisons are the IEEE ones (every comparison with NaN is false). *)

Module Num.

Abbreviation number := spec_float.

Definition prec : Z := 53.
Definition emax : Z := 1024.

Definition of_Z (z : Z) : number := binary_normalize prec emax z 0 false.
Definition mul : number -> number -> number := SFmul prec emax.
Definition sub : number -> number -> number := SFsub prec emax.
Definition div : number -> number -> number := SFdiv prec emax.
Definition ltb : number -> number -> bool := SFltb.
Definition leb : number -> number -> bool := SFleb.

(** The value of a decimal literal of the source or of a test case: the
    binary64 number nearest to it. *)
Definition lit (q : Q) : number := div (of_Z (Qnum q)) (of_Z (Zpos (Qden q))).

(** A well-formed binary64 value. *)
Definition valid (x : number) : bool := valid_binary prec emax x.

(** [isNaN(x)] *)
Definition isNaN (x : number) : bool :=
  match x with S754_nan => true | _ => false end.

(** ToBoolean of a number: [0], [-0] and [NaN] are falsy. *)
Definition truthy (x : number) : bool :=
  match x with
  | S754_zero _ | S754_nan => false
  | _ => true
  end.

(** The signed mantissa of a finite number: its value is
    [mantissa * 2 ^ exponent]. *)
Definition mantissa (s : bool) (m : positive) : Z := cond_Zopp s (Zpos m).

(** [Math.floor(x)] and [Math.round(x)] (nearest integer, ties towards
    +infinity) of a finite number, as integers.  Both call sites pass a
    finite number of magnitude below 1441, for which the integer-valued
    double JavaScript returns and the arithmetic done on it afterwards
    are exact; the infinities and NaN, which are not integers, are sent
    to 0 here. *)
Definition Math_floor (x : number) : Z :=
  match x with
  | S754_finite s m e =>
      if 0 <=? e then mantissa s m * 2 ^ e else mantissa s m / 2 ^ (- e)
  | _ => 0
  end.

Definition Math_round (x : number) : Z :=
  match x with
  | S754_finite s m e =>
      if 0 <=? e then mantissa s m * 2 ^ e
      else (2 * mantissa s m + 2 ^ (- e)) / 2 ^ (- e + 1)
  | _ => 0
  end.

(** *** [Number::toString]

    The digits are the shortest decimal [s * 10 ^ (n - k)], with [k]
    digits, that reads back as the number; among those of that length the
    one nearest to it. *)

(** [dec_cmp s p b e] compares [s * 10 ^ p] with [b * 2 ^ e]. *)
Definition dec_cmp (s p b e : Z) : comparison :=
  (s * 10 ^ Z.max p 0 * 2 ^ Z.max (- e) 0
   ?= b * 2 ^ Z.max e 0 * 10 ^ Z.max (- p) 0).

(** The least [n] from [n0] on with [m * 2 ^ e < 10 ^ n].  The search
    starts below it: [m * 2 ^ e] is at least [2 ^ (Z.log2 m + e)], and
    30103 / 100000 approximates the decimal logarithm of 2. *)
Fixpoint magnitude (fuel : nat) (n0 : Z) (m e : Z) : Z :=
  match fuel with
  | O => n0
  | S fuel' =>
      match dec_cmp 1 n0 m e with
      | Gt => n0
      | _ => magnitude fuel' (n0 + 1) m e
      end
  end.

(** The decimals that read back as [m * 2 ^ e] lie between the midpoints
    to its two neighbours, the midpoints included when [m] is even. *)
Definition reads_back (m e : Z) (s p : Z) : bool :=
  let lo := 4 * m - (if (m =? 2 ^ (prec - 1)) && (3 - emax - prec <? e) then 1 else 2) in
  let hi := 4 * m + 2 in
  let inside c ok := match c with Eq => Z.even m | x => ok x end in
  inside (dec_cmp s p lo (e - 2)) (fun c => match c with Gt => true | _ => false end)
  && inside (dec_cmp s p hi (e - 2)) (fun c => match c with Lt => true | _ => false end).

(** The [k]-digit candidates around [m * 2 ^ e], when one reads back. *)
Definition candidate (m e n k : Z) : option Z :=
  let p := n - k in
  let s_lo := (m * 2 ^ Z.max e 0 * 10 ^ Z.max (- p) 0)
              / (10 ^ Z.max p 0 * 2 ^ Z.max (- e) 0) in
  let s_hi := s_lo + 1 in
  match reads_back m e s_lo p, reads_back m e s_hi p with
  | true, true =>
      match dec_cmp (2 * s_lo + 1) p (2 * m) e with
      | Gt => Some s_lo
      | Lt => Some s_hi
      | Eq => Some (if Z.even s_lo then s_lo else s_hi)
      end
  | true, false => Some s_lo
  | false, true => Some s_hi
  | false, false => None
  end.

Fixpoint shortest (fuel : nat) (m e n k : Z) : Z * Z :=
  match fuel with
  | O => (m, k)
  | S fuel' =>
      match candidate m e n k with
      | Some s => (s, k)
      | None => shortest fuel' m e n (k + 1)
      end
  end.

Fixpoint strip_zeros (fuel : nat) (s : Z) : Z :=
  match fuel with
  | O => s
  | S fuel' => if (s mod 10 =? 0) && (0 <? s) then strip_zeros fuel' (s / 10) else s
  end.

Definition zeros (n : Z) : string := Str.repeat "0" (Z.to_nat n).

Definition exponent_part (n : Z) : string :=
  "e" ++ (if (n - 1 <? 0)%Z then "-" else "+") ++ Str.of_Z (Z.abs (n - 1)).

(** The text of the positive finite number [m * 2 ^ e]. *)
Definition positive_toString (m e : Z) : string :=
  let n0 := magnitude 8 ((Z.log2 m + e) * 30103 / 100000 - 1) m e in
  let '(s, k) := shortest 17 m e n0 1 in
  let n := if s =? 10 ^ k then n0 + 1 else n0 in
  let digits := Str.of_Z (strip_zeros 25 s) in
  let k := Z.of_nat (String.length digits) in
  if ((k <=? n) && (n <=? 21))%Z then digits ++ zeros (n - k)
  else if ((0 <? n) && (n <=? 21))%Z
       then String.substring 0 (Z.to_nat n) digits ++ "."
            ++ String.substring (Z.to_nat n) (Z.to_nat (k - n)) digits
  else if ((-6 <? n) && (n <=? 0))%Z then "0." ++ zeros (- n) ++ digits
  else if (k =? 1)%Z then digits ++ exponent_part n
  else String.substring 0 1 digits ++ "."
       ++ String.substring 1 (Z.to_nat (k - 1)) digits ++ exponent_part n.

Definition toString (x : number) : string :=
  match x with
  | S754_nan => "NaN"
  | S754_zero _ => "0"
  | S754_infinity s => if s then "-Infinity" else "Infinity"
  | S754_finite s m e =>
      (if s then "-" else "") ++ positive_toString (Zpos m) e
  end.

End Num.

(** ** Cells and rows

    A cell of the decoded sheet is missing ([undefined], also what indexing
    past the end of a row yields), a text or a number. *)

Inductive cell : Type :=
| Missing
| Text (s : string)
| Number (x : Num.number).

(** [row[k]] *)
Definition cell_at (row : list cell) (k : nat) : cell := default Missing (row !! k).

(** ToBoolean: what [if (c)], [!c] and [c || ""] test. *)
Definition truthy (c : cell) : bool :=
  match c with
  | Missing => false
  | Text s => negb (Str.is_empty s)
  | Number x => Num.truthy x
  end.

(** [(c || "").toString()] *)
Definition text_of (c : cell) : string :=
  match c with
  | Missing => ""
  | Text s => s
  | Number x => if Num.truthy x then Num.toString x else ""
  end.

(** ** The patterns of [scripts.js] *)

(** [/route\s*no/i] *)
Definition headerRegex : Regex.t :=
  Regex.seq [Regex.word "route"; Regex.Star Regex.space; Regex.word "no"].

(** [/friday\s*schedule/i] *)
Definition fridayMarker : Regex.t :=
  Regex.seq [Regex.word "friday"; Regex.Star Regex.space; Regex.word "schedule"].

(** [/route\s*details/i] *)
Definition detailsRegex : Regex.t :=
  Regex.seq [Regex.word "route"; Regex.Star Regex.space; Regex.word "details"].

(** [/^[RF]\d+/i], anchored at the start only. *)
Definition routeCodeRegex : Regex.t :=
  Regex.seq [Regex.Alt (Regex.ci "R") (Regex.ci "F"); Regex.plus Regex.digit].

(** [/to/i] *)
Definition toRegex : Regex.t := Regex.word "to".

(** [(AM|PM)] under the [i] flag. *)
Definition ampm : Regex.t := Regex.Alt (Regex.word "AM") (Regex.word "PM").

(** [/^(\d{1,2})\.(\d{2})\s*(AM|PM)$/i] *)
Definition dottedRegex : Regex.t :=
  Regex.seq [Regex.digit; Regex.opt Regex.digit; Regex.chr ".";
             Regex.digit; Regex.digit; Regex.Star Regex.space; ampm].

(** [/^\d{1,2}:\d{2}(\s?(AM|PM))?$/i] *)
Definition timeRegex : Regex.t :=
  Regex.seq [Regex.digit; Regex.opt Regex.digit; Regex.chr ":";
             Regex.digit; Regex.digit;
             Regex.opt (Regex.Cat (Regex.opt Regex.space) ampm)].

(** ** The time normaliser *)

(** [formatTime(hh, mm)] *)
Definition formatTime (hh mm : Z) : string :=
  let ampm := if 12 <=? hh then "PM" else "AM" in
  let h12 := if Z.rem hh 12 =? 0 then 12 else Z.rem hh 12 in
  Str.of_Z h12 ++ ":" ++ Str.padStart0 2 (Str.of_Z mm) ++ " " ++ ampm.

(** [t.replace(/^(\d{1,2})\.(\d{2})\s*(AM|PM)$/i, "$1:$2 $3")].  In a
    text the pattern accepts, group 1 is what precedes the first dot,
    group 2 the two characters after it, group 3 the last two characters. *)
Definition replace_dotted (t : string) : string :=
  if Regex.matches dottedRegex t then
    let g1 := Str.before "." t in
    let g2 := String.substring (S (String.length g1)) 2 t in
    let g3 := String.substring (String.length t - 2) 2 t in
    g1 ++ ":" ++ g2 ++ " " ++ g3
  else t.

(** The text path of [normalizeTime], from [t.toString()] on. *)
Definition normalizeText (s : string) : string :=
  let t := Str.trim (Str.collapse s) in
  if Regex.search toRegex t then t
  else
    let t := replace_dotted t in
    if Regex.matches timeRegex t then Str.toUpperCase t else t.

(** The two numeric branches of [normalizeTime]; [None] when the number
    falls through to the text path. *)
Definition normalizeNumber (t : Num.number) : option string :=
  if Num.leb (Num.of_Z 0) t && Num.ltb t (Num.of_Z 1) then
    let totalMinutes := Num.Math_round (Num.mul (Num.mul t (Num.of_Z 24)) (Num.of_Z 60)) in
    let hh := totalMinutes / 60 in
    let mm := Z.rem totalMinutes 60 in
    Some (formatTime hh mm)
  else if Num.ltb (Num.of_Z 1) t && Num.ltb t (Num.of_Z 24) then
    let hh := Num.Math_floor t in
    let mm := Num.Math_round (Num.mul (Num.sub t (Num.of_Z hh)) (Num.of_Z 60)) in
    Some (formatTime hh mm)
  else None.

(** [normalizeTime(t)] *)
Definition normalizeTime (t : cell) : string :=
  match t with
  | Missing => ""
  | Text s => if Str.is_empty s then "" else normalizeText s
  | Number x =>
      match (if Num.isNaN x then None else normalizeNumber x) with
      | Some r => r
      | None => normalizeText (Num.toString x)
      end
  end.

(** ** The schedule parser *)

(** A route object.  [display] is set by the pass that ends [parseSchedule]
    and is [undefined] before. *)
Record Route : Type := mkRoute {
  code : string;
  name : string;
  details : string;
  toDSC : list string;
  fromDSC : list string;
  display : option string
}.

(** The own properties of a route object, in creation order. *)
Definition keys (r : Route) : list string :=
  ["code"; "name"; "details"; "toDSC"; "fromDSC"]
  ++ match display r with Some _ => ["display"] | None => [] end.

Inductive Mode : Type := regular_mode | friday_mode.

(** The variables of the loop of [parseSchedule].  Route objects are
    allocated in [heap]; [routesRegular], [routesFriday] and [current] hold
    references (indices) into it. *)
Record State : Type := mkState {
  mode : Mode;
  routesRegular : list nat;
  routesFriday : list nat;
  current : option nat;
  heap : list Route
}.

Definition initial : State :=
  {| mode := regular_mode; routesRegular := []; routesFriday := [];
     current := None; heap := [] |}.

(** [if (c) arr.push(normalizeTime(c))] *)
Definition push_time (c : cell) (arr : list string) : list string :=
  if truthy c then arr ++ [normalizeTime c] else arr.

(** The two pushes of a continuation row, on the object [current] refers to. *)
Definition extend (c1 c4 : cell) (r : Route) : Route :=
  {| code := code r; name := name r; details := details r;
     toDSC := push_time c1 (toDSC r);
     fromDSC := push_time c4 (fromDSC r);
     display := display r |}.

(** The trimmed text of a cell: [(row[k] || "").toString().trim()]. *)
Definition trimmed (row : list cell) (k : nat) : string :=
  Str.trim (text_of (cell_at row k)).

Definition all_empty (row : list cell) : bool :=
  Str.is_empty (trimmed row 0) && negb (truthy (cell_at row 1))
  && Str.is_empty (trimmed row 2) && Str.is_empty (trimmed row 3)
  && negb (truthy (cell_at row 4)).

Definition is_friday_marker (row : list cell) : bool :=
  Regex.search fridayMarker (trimmed row 0).

Definition is_header (row : list cell) : bool :=
  Regex.search headerRegex (trimmed row 0)
  || Regex.search detailsRegex (trimmed row 3).

Definition looksLikeRouteCode (row : list cell) : bool :=
  Regex.matches_prefix routeCodeRegex (trimmed row 0).

(** The object literal of a route-opening row, after its two pushes. *)
Definition new_route (row : list cell) : Route :=
  {| code := trimmed row 0;
     name := trimmed row 2;
     details := trimmed row 3;
     toDSC := push_time (cell_at row 1) [];
     fromDSC := push_time (cell_at row 4) [];
     display := None |}.

(** One iteration of the loop over the rows. *)
Definition step (st : State) (row : list cell) : State :=
  if all_empty row then st
  else if is_friday_marker row then
    {| mode := friday_mode; routesRegular := routesRegular st;
       routesFriday := routesFriday st; current := None; heap := heap st |}
  else if is_header row then
    {| mode := mode st; routesRegular := routesRegular st;
       routesFriday := routesFriday st; current := None; heap := heap st |}
  else if looksLikeRouteCode row then
    let ref := length (heap st) in
    {| mode := mode st;
       routesRegular :=
         match mode st with
         | friday_mode => routesRegular st
         | regular_mode => routesRegular st ++ [ref]
         end;
       routesFriday :=
         match mode st with
         | friday_mode => routesFriday st ++ [ref]
         | regular_mode => routesFriday st
         end;
       current := Some ref;
       heap := heap st ++ [new_route row] |}
  else
    match current st with
    | Some ref =>
        if Str.is_empty (trimmed row 0) then
          {| mode := mode st; routesRegular := routesRegular st;
             routesFriday := routesFriday st; current := current st;
             heap := alter (extend (cell_at row 1) (cell_at row 4)) ref (heap st) |}
        else st
    | None => st
    end.

(** The loop over the rows. *)
Definition scan (rows : list (list cell)) : State := fold_left step rows initial.

(** [Array.from(new Set(arr))]: a [Set] keeps its elements in insertion
    order and ignores an element it already holds. *)
Definition set_add (seen : list string) (x : string) : list string :=
  if existsb (String.eqb x) seen then seen else seen ++ [x].

Definition dedupe (arr : list string) : list string := fold_left set_add arr [].

(** The body of the closing loop, on one route object. *)
Definition finish (r : Route) : Route :=
  {| code := code r; name := name r; details := details r;
     toDSC := dedupe (toDSC r);
     fromDSC := dedupe (fromDSC r);
     display :=
       Some (Str.trim (code r ++ (if Str.is_empty (name r) then "" else " — " ++ name r))) |}.

(** The closing loop over [[...routesRegular, ...routesFriday]]. *)
Definition finish_all (refs : list nat) (h : list Route) : list Route :=
  fold_left (fun h ref => alter finish ref h) refs h.

(** The objects an array of references holds. *)
Definition deref (h : list Route) (refs : list nat) : list Route :=
  omap (fun ref => h !! ref) refs.

Record Schedule : Type := mkSchedule {
  regular : list Route;
  friday : list Route
}.

(** [parseSchedule(rows)] *)
Definition parseSchedule (rows : list (list cell)) : Schedule :=
  let st := scan rows in
  let h := finish_all (routesRegular st ++ routesFriday st) (heap st) in
  {| regular := deref h (routesRegular st);
     friday := deref h (routesFriday st) |}.

(** ** The filter of [render] and the badge of [routeCard] *)

(** The text a query is searched in. *)
Definition hay (r : Route) : string :=
  Str.toLowerCase (Str.join " " ([code r; name r; details r] ++ toDSC r ++ fromDSC r)).

(** The list [render] shows: [routes] is the partition the toggle selects,
    [selectedCode] the value of the route selector and [searchValue] the
    value of the search box. *)
Definition render_filtered (routes : list Route) (selectedCode searchValue : string)
  : list Route :=
  let q := Str.toLowerCase searchValue in
  let filtered := routes in
  let filtered :=
    if Str.is_empty selectedCode then filtered
    else List.filter (fun r => String.eqb (code r) selectedCode) filtered in
  let filtered :=
    if Str.is_empty q then filtered
    else List.filter (fun r => Str.includes (hay r) q) filtered in
  filtered.

(** The badge [routeCard] shows: [r.code.startsWith("F") ? "Friday" : "Regular"]. *)
Definition badge (r : Route) : string :=
  if Str.startsWith (code r) "F" then "Friday" else "Regular".

(** ** Test inputs of the specification *)

(** [[["Friday Schedule"],[],["R1","08:00","Main Route","Via X",0.75],
      ["","09:00","","",0.8]]] *)
Definition classifier_rows : list (list cell) :=
  [ [Text "Friday Schedule"];
    [];
    [Text "R1"; Text "08:00"; Text "Main Route"; Text "Via X"; Number (Num.lit 0.75)];
    [Text ""; Text "09:00"; Text ""; Text ""; Number (Num.lit 0.8)] ].

(** A route-opening row whose two time cells hold the number 0 (midnight
    as a day fraction): [["R1", 0, "Main Route", "Via X", 0]]. *)
Definition midnight_rows : list (list cell) :=
  [ [Text "R1"; Number (Num.of_Z 0); Text "Main Route"; Text "Via X"; Number (Num.of_Z 0)] ].

(** ** First-seen order

    [first_index x l] is the position at which [x] first appears in [l]
    (the length of [l] when it does not appear). *)
Fixpoint first_index (x : string) (l : list string) : nat :=
  match l with
  | [] => O
  | y :: l' => if String.eqb y x then O else S (first_index x l')
  end.

(** [res] holds every value of [acc] exactly once, in the order in which
    the values first appear in [acc]. *)
Definition first_seen (acc res : list string) : Prop :=
  NoDup res
  /\ (forall x, x ∈ res <-> x ∈ acc)
  /\ (forall i j x y, res !! i = Some x -> res !! j = Some y -> (i < j)%nat ->
        (first_index x acc < first_index y acc)%nat).

(** ** The filter contract *)

(** The space-joined concatenation of a route's code, name, details and
    all its times. *)
Definition joined (r : Route) : string :=
  Str.join " " ([code r; name r; details r] ++ toDSC r ++ fromDSC r).

(** [needle] occurs in [text], letter case apart. *)
Definition contains_ci (text needle : string) : Prop :=
  exists pre post : string,
    Str.toLowerCase text = (pre ++ Str.toLowerCase needle ++ post)%string.

(** The routes the contract keeps. *)
Definition kept (selectedCode query : string) (r : Route) : Prop :=
  (selectedCode = "" \/ code r = selectedCode)
  /\ (query = "" \/ contains_ci (joined r) query).

(** The test [render] applies to each route, its two filters taken
    together. *)
Definition keeps (selectedCode searchValue : string) (r : Route) : bool :=
  (Str.is_empty selectedCode || String.eqb (code r) selectedCode)
  && (Str.is_empty (Str.toLowerCase searchValue)
      || Str.includes (hay r) (Str.toLowerCase searchValue)).

(** ** Row classes *)

(** A row that opens a route: it reaches the route-code test and passes it. *)
Definition opens_route (row : list cell) : bool :=
  negb (all_empty row) && negb (is_friday_marker row) && negb (is_header row)
  && looksLikeRouteCode row.

(** Rows used as test inputs for the frame property: a route-opening row,
    then a row whose first cell is neither empty nor recognised. *)
Definition opening_row : list cell := [Text "R7"; Text "7:00"; Text "Campus"].

(** A cell that is not empty as it stands in the sheet: a text other than
    the empty one, or a number, 0 included. *)
Definition holds_something (c : cell) : bool :=
  match c with
  | Missing => false
  | Text s => negb (Str.is_empty s)
  | Number _ => true
  end.

Definition zero_code_row : list cell := [Number (Num.of_Z 0); Text "8:00"].

(** ** The 12-hour rendering, as the specification words it

    Hour 0 or 12 shows as "12", any other hour as the hour modulo 12; the
    minutes are zero-padded to two digits; the suffix is "AM" when the
    24-hour hour is below 12 and "PM" otherwise. *)
Definition render12 (hour minute : Z) : string :=
  let shown := if (hour =? 0) || (hour =? 12) then 12 else hour mod 12 in
  let suffix := if hour <? 12 then "AM" else "PM" in
  Str.of_Z shown ++ ":" ++ Str.padStart0 2 (Str.of_Z minute) ++ " " ++ suffix.

(** ** The minute count of the specification

    [round(t * 1440)] for a day fraction [t]: the exact value of the number
    times 1440, rounded to the nearest integer (a tie upwards), and the
    12-hour rendering of that many minutes. *)
Definition exact_value (x : Num.number) : Q :=
  match x with
  | S754_finite s m e => (inject_Z (Num.mantissa s m) * Qpower (2 # 1) e)%Q
  | _ => 0%Q
  end.

Definition claimed_minutes (t : Num.number) : Z :=
  Qfloor (exact_value t * (1440 # 1) + (1 # 2))%Q.

Definition claimed_rendering (t : Num.number) : string :=
  render12 (claimed_minutes t / 60) (claimed_minutes t mod 60).

(** ** The minute counts of [normalizeTime]

    The two expressions of the code, with its binary64 products:
    [Math.round(t * 24 * 60)] in the first branch and
    [Math.round((t - Math.floor(t)) * 60)] in the second. *)
Definition totalMinutes (t : Num.number) : Z :=
  Num.Math_round (Num.mul (Num.mul t (Num.of_Z 24)) (Num.of_Z 60)).

Definition minuteOfHour (t : Num.number) : Z :=
  Num.Math_round (Num.mul (Num.sub t (Num.of_Z (Num.Math_floor t))) (Num.of_Z 60)).

(** The day fraction [0.7982638888888888], one binary64 step below
    [1149.5 / 1440]. *)
Definition half_minute_fraction : Num.number :=
  S754_finite false 7190121905086645 (-53).

(** A number that is not a negative finite one. *)
Definition not_negative (x : Num.number) : Prop :=
  match x with S754_finite true _ _ => False | _ => True end.

(** ** Whitespace-normal texts *)

(** Every blank of [s] is a single space that follows a non-blank;
    [after_blank] tells that the character before [s] was a blank. *)
Fixpoint single_spaced (after_blank : bool) (s : string) : bool :=
  match s with
  | EmptyString => true
  | String c s' =>
      if Str.is_space c
      then Ascii.eqb c " " && negb after_blank && single_spaced true s'
      else single_spaced false s'
  end.

(** [s] does not start with a blank. *)
Definition no_leading_blank (s : string) : bool :=
  match s with
  | EmptyString => true
  | String c _ => negb (Str.is_space c)
  end.

(** Every character class of [r] is blind to the character map [f]. *)
Fixpoint respects (f : ascii -> ascii) (r : Regex.t) : Prop :=
  match r with
  | Regex.Void | Regex.Eps => True
  | Regex.Chr p => forall c, p (f c) = p c
  | Regex.Cat r1 r2 | Regex.Alt r1 r2 => respects f r1 /\ respects f r2
  | Regex.Star r1 => respects f r1
  end.
(** ** Character classes of the time texts *)

(** [c] is the letter T, in either case. *)
Definition is_t (c : ascii) : bool := Ascii.eqb (Str.upper c) "T".

(** The characters of a formatted or rewritten time: digits, the minus
    sign, the colon, the space and the letters A, P and M. *)
Definition time_char (c : ascii) : bool :=
  Str.is_digit c || Ascii.eqb c "-" || Ascii.eqb c ":" || Ascii.eqb c " "
  || Ascii.eqb (Str.upper c) "A" || Ascii.eqb (Str.upper c) "P"
  || Ascii.eqb (Str.upper c) "M".

Definition nonblank (c : ascii) : bool := negb (Str.is_space c).

(** The characters [formatTime] produces: digits, the minus sign, the
    colon, the space and the capitals A, P and M. *)
Definition clock_char (c : ascii) : bool :=
  Str.is_digit c || Ascii.eqb c "-" || Ascii.eqb c ":" || Ascii.eqb c " "
  || Ascii.eqb c "A" || Ascii.eqb c "P" || Ascii.eqb c "M".

(** The characters of the decimal rendering of an integer. *)
Definition sign_or_digit (c : ascii) : bool := Str.is_digit c || Ascii.eqb c "-".

(** [p], [q] spell AM or PM, in either case. *)
Definition spells_ampm (p q : ascii) : bool :=
  (Ascii.eqb (Str.upper p) "A" || Ascii.eqb (Str.upper p) "P")
  && Ascii.eqb (Str.upper q) "M".

(** ** The rows of one route

    A route is read from the row that opens it up to the next row that
    ends it: the Friday marker, a header row or a row that looks like a
    route code. *)
Definition closes (row : list cell) : bool :=
  is_friday_marker row || is_header row || looksLikeRouteCode row.

(** The times cell [k] contributes over the rows that follow an opening
    row: those of the rows whose first cell is empty, up to the row that
    ends the route. *)
Fixpoint block_times (k : nat) (rows : list (list cell)) (acc : list string)
  : list string :=
  match rows with
  | [] => acc
  | row :: rest =>
      if closes row then acc
      else block_times k rest
             (if Str.is_empty (trimmed row 0) then push_time (cell_at row k) acc
              else acc)
  end.

(** The route object an opening row [o] followed by the rows [post]
    accumulates. *)
Definition block_route (o : list cell) (post : list (list cell)) : Route :=
  {| code := trimmed o 0;
     name := trimmed o 2;
     details := trimmed o 3;
     toDSC := block_times 1 post (push_time (cell_at o 1) []);
     fromDSC := block_times 4 post (push_time (cell_at o 4) []);
     display := None |}.

(** The code, name and details of a route, and the cells of a row they
    are read from. *)
Definition identity (r : Route) : string * string * string :=
  (code r, name r, details r).

Definition row_identity (row : list cell) : string * string * string :=
  (trimmed row 0, trimmed row 2, trimmed row 3).

(** ** [ingestWorkbook]

    The state of the page.  [ingestWorkbook] reads the heading from cell A1
    of the first sheet and the rows from [XLSX.utils.sheet_to_json]; both
    are taken as given here. *)
Module App.

Record state : Type := mkState {
  all : list Route;
  regular : list Route;
  friday : list Route;
  heading : string;
  lastUpdate : string
}.

(** [const state = { all: [], regular: [], friday: [], meta: {...} }] *)
Definition initial : state :=
  {| all := []; regular := []; friday := []; heading := ""; lastUpdate := "" |}.

End App.

(** The assignments of [ingestWorkbook(workbook)] to [state]; [a1] is
    [sheet["A1"]?.v]. *)
Definition ingestWorkbook (a1 : cell) (rows : list (list cell)) (s : App.state)
  : App.state :=
  let parsed := parseSchedule rows in
  {| App.heading := Str.trim (text_of a1);
     App.regular := regular parsed;
     App.friday := friday parsed;
     App.all := regular parsed ++ friday parsed;
     App.lastUpdate := App.lastUpdate s |}.

(** ** [escapeHtml] *)

(** The double quote. *)
Definition dquote : ascii := "034".

(** The replacement [escapeHtml] makes for one character: the entity of
    [&], [<], [>], the double quote and the apostrophe, the character
    itself otherwise. *)
Definition escape_char (c : ascii) : string :=
  if Ascii.eqb c "&" then "&amp;"
  else if Ascii.eqb c "<" then "&lt;"
  else if Ascii.eqb c ">" then "&gt;"
  else if Ascii.eqb c dquote then "&quot;"
  else if Ascii.eqb c "'" then "&#39;"
  else String c "".

(** [escapeHtml(str)] for a text [str]: the global replace visits the
    characters from left to right. *)
Fixpoint escapeHtml (str : string) : string :=
  match str with
  | EmptyString => ""
  | String c rest => escape_char c ++ escapeHtml rest
  end.

(** The characters [escapeHtml] replaces. *)
Definition is_special (c : ascii) : bool :=
  Ascii.eqb c "&" || Ascii.eqb c "<" || Ascii.eqb c ">"
  || Ascii.eqb c dquote || Ascii.eqb c "'".

(** The characters that open or close markup or an attribute value. *)
Definition is_markup (c : ascii) : bool :=
  Ascii.eqb c "<" || Ascii.eqb c ">" || Ascii.eqb c dquote || Ascii.eqb c "'".

(** The text starts with the rest of one of the five entities. *)
Definition entity_tail (s : string) : bool :=
  String.prefix "amp;" s || String.prefix "lt;" s || String.prefix "gt;" s
  || String.prefix "quot;" s || String.prefix "#39;" s.

(** No markup character occurs in [s], and every ampersand of [s] starts
    one of the five entities. *)
Fixpoint well_escaped (s : string) : bool :=
  match s with
  | EmptyString => true
  | String c rest =>
      (if Ascii.eqb c "&" then entity_tail rest else negb (is_markup c))
      && well_escaped rest
  end.

(** Reading the five entities back, as the browser does with the text it
    is given; [scripts.js] has no such function, it serves to state that
    [escapeHtml] loses nothing. *)
Fixpoint unescapeHtml (s : string) : string :=
  match s with
  | EmptyString => ""
  | String "&" (String "a" (String "m" (String "p" (String ";" rest)))) =>
      String "&" (unescapeHtml rest)
  | String "&" (String "l" (String "t" (String ";" rest))) =>
      String "<" (unescapeHtml rest)
  | String "&" (String "g" (String "t" (String ";" rest))) =>
      String ">" (unescapeHtml rest)
  | String "&" (String "q" (String "u" (String "o" (String "t" (String ";" rest))))) =>
      String dquote (unescapeHtml rest)
  | String "&" (String "#" (String "3" (String "9" (String ";" rest)))) =>
      String "'" (unescapeHtml rest)
  | String c rest => String c (unescapeHtml rest)
  end.

(** ** The times of a day *)

(** The texts [formatTime] gives for the 1440 minutes of a day, in order. *)
Definition clock_table : list string :=
  (fun n => formatTime (Z.of_nat (n / 60)) (Z.of_nat (n mod 60))) <$> seq 0 1440.

(** No text occurs twice in [l]. *)
Fixpoint distinct (l : list string) : bool :=
  match l with
  | [] => true
  | x :: l' => negb (existsb (String.eqb x) l') && distinct l'
  end.

(** ** The characters of [Number::toString] *)

(** Digits, the sign, the point, the exponent mark and the letters of
    "NaN" and "Infinity". *)
Definition number_char (c : ascii) : bool :=
  Str.is_digit c
  || existsb (Ascii.eqb c)
       ["-"; "."; "e"; "+"; "N"; "a"; "I"; "n"; "f"; "i"; "t"; "y"]%char.

(** ** Rows that carry nothing *)

(** The rows of a sheet without its blank rows. *)
Definition without_blank_rows (rows : list (list cell)) : list (list cell) :=
  List.filter (fun row => negb (all_empty row)) rows.

(** A row above the first route that is not the Friday marker: a title, a
    header, a blank row or a row of times without a route code. *)
Definition preamble_row (row : list cell) : bool :=
  negb (opens_route row) && negb (is_friday_marker row).

(** * Properties *)

(** ** The classifier scenario *)

(** C1, as stated, fails: the parser leaves the texts "08:00" and "09:00"
    as they are (the H:MM pattern accepts them and upper-casing changes
    nothing), so [toDSC] is not ["8:00 AM"; "9:00 AM"]. *)
Lemma classifier_scenario_as_stated_fails :
  ~ (regular (parseSchedule classifier_rows) = []
     /\ exists r, friday (parseSchedule classifier_rows) = [r]
          /\ code r = "R1" /\ name r = "Main Route" /\ details r = "Via X"
          /\ toDSC r = ["8:00 AM"; "9:00 AM"]
          /\ fromDSC r = ["6:00 PM"; "7:12 PM"]).
Proof.
  intros (_ & r & Hf & _ & _ & _ & Hto & _).
  vm_compute in Hf. injection Hf as <-. discriminate Hto.
Qed.

(** C1 (amended): parsing the classifier rows yields [regular = []] and
    [friday] equal to exactly one route with code "R1", name "Main Route",
    details "Via X", [toDSC = ["08:00"; "09:00"]] and
    [fromDSC = ["6:00 PM"; "7:12 PM"]]. *)
Theorem classifier_scenario :
  regular (parseSchedule classifier_rows) = []
  /\ exists r, friday (parseSchedule classifier_rows) = [r]
       /\ code r = "R1" /\ name r = "Main Route" /\ details r = "Via X"
       /\ toDSC r = ["08:00"; "09:00"]
       /\ fromDSC r = ["6:00 PM"; "7:12 PM"].
Proof.
  split; [vm_compute; reflexivity|].
  eexists. split; [vm_compute; reflexivity|].
  repeat split.
Qed.

(** ** Time cells that hold the number 0 *)

(** C3: the code departs from the claim on the number 0.  [normalizeTime]
    renders it as "12:00 AM", but the guards [if (c1)] and [if (c4)] of the
    parser take it for an empty cell, so the opened route gets no time. *)
Theorem zero_time_cell_is_dropped :
  normalizeTime (Number (Num.of_Z 0)) = "12:00 AM"
  /\ exists r, regular (parseSchedule midnight_rows) = [r]
       /\ code r = "R1" /\ toDSC r = [] /\ fromDSC r = [].
Proof.
  split; [vm_compute; reflexivity|].
  eexists. split; [vm_compute; reflexivity|].
  repeat split.
Qed.

(** ** Deduplication of the time lists *)

Lemma existsb_eqb_elem (x : string) (l : list string) :
  existsb (String.eqb x) l = true <-> x ∈ l.
Proof.
  rewrite existsb_exists. split.
  - intros (y & Hy & Heq). apply String.eqb_eq in Heq. subst.
    by apply list_elem_of_In.
  - intros H. exists x. split; [by apply list_elem_of_In | apply String.eqb_refl].
Qed.

Lemma dedupe_snoc (l : list string) (x : string) :
  dedupe (l ++ [x]) = set_add (dedupe l) x.
Proof. unfold dedupe. by rewrite fold_left_app. Qed.

Lemma first_index_app_l (x : string) (l l' : list string) :
  x ∈ l -> first_index x (l ++ l') = first_index x l.
Proof.
  induction l as [|y l IH]; intros Hin; [by apply elem_of_nil in Hin|].
  simpl. destruct (String.eqb_spec y x) as [->|Hne]; [done|].
  apply elem_of_cons in Hin as [->|Hin]; [done|]. by rewrite IH.
Qed.

Lemma first_index_lt (x : string) (l : list string) :
  x ∈ l -> (first_index x l < length l)%nat.
Proof.
  induction l as [|y l IH]; intros Hin; [by apply elem_of_nil in Hin|].
  simpl. destruct (String.eqb_spec y x) as [->|Hne]; [lia|].
  apply elem_of_cons in Hin as [->|Hin]; [done|]. specialize (IH Hin). lia.
Qed.

Lemma first_index_absent (x : string) (l l' : list string) :
  x ∉ l -> first_index x (l ++ x :: l') = length l.
Proof.
  induction l as [|y l IH]; intros Hin; simpl.
  - by rewrite String.eqb_refl.
  - apply not_elem_of_cons in Hin as [Hne Hin].
    destruct (String.eqb_spec y x) as [->|_]; [done|]. by rewrite IH.
Qed.

Lemma dedupe_first_seen (l : list string) : first_seen l (dedupe l).
Proof.
  induction l as [|x l IH] using rev_ind.
  - split; [constructor|]. split; [done|].
    intros i j a b Hi. unfold dedupe in Hi. simpl in Hi. by rewrite lookup_nil in Hi.
  - destruct IH as (Hnd & Hmem & Hord).
    rewrite dedupe_snoc. unfold set_add.
    destruct (existsb (String.eqb x) (dedupe l)) eqn:Hex.
    + apply existsb_eqb_elem in Hex.
      split; [done|]. split.
      * intros z. rewrite Hmem, elem_of_app, list_elem_of_singleton.
        split; [tauto|]. intros [?| ->]; [done|]. by apply Hmem.
      * intros i j a b Ha Hb Hij.
        rewrite !first_index_app_l;
          [eauto | apply Hmem; eapply list_elem_of_lookup_2; eauto ..].
    + assert (Hx : x ∉ l).
      { intros Hx. apply Hmem, existsb_eqb_elem in Hx. congruence. }
      assert (Hx' : x ∉ dedupe l) by (by rewrite Hmem).
      split; [|split].
      * apply NoDup_app. repeat split; [done| |apply NoDup_singleton].
        intros z Hz Hz'. apply list_elem_of_singleton in Hz'. by subst.
      * intros z. rewrite !elem_of_app, Hmem. done.
      * intros i j a b Ha Hb Hij.
        apply lookup_app_Some in Hb as [Hb|[Hlen Hb]].
        -- rewrite lookup_app_l in Ha by (apply lookup_lt_Some in Hb; lia).
           rewrite !first_index_app_l;
             [eauto | apply Hmem; eapply list_elem_of_lookup_2; eauto ..].
        -- apply list_lookup_singleton_Some in Hb as [Hj <-].
           rewrite lookup_app_l in Ha by lia.
           assert (Hain : a ∈ l) by (apply Hmem; eapply list_elem_of_lookup_2; eauto).
           rewrite first_index_app_l by done.
           rewrite first_index_absent by done.
           by apply first_index_lt.
Qed.

Lemma dedupe_NoDup (l : list string) : NoDup l -> dedupe l = l.
Proof.
  induction l as [|x l IH] using rev_ind; intros Hnd; [done|].
  apply NoDup_app in Hnd as (Hl & Hx & _).
  rewrite dedupe_snoc, IH by done. unfold set_add.
  destruct (existsb (String.eqb x) l) eqn:Hex; [|done].
  apply existsb_eqb_elem in Hex. exfalso. eapply Hx; [done|]. by left.
Qed.

Lemma dedupe_idemp (l : list string) : dedupe (dedupe l) = dedupe l.
Proof. apply dedupe_NoDup. apply dedupe_first_seen. Qed.

Lemma finish_idemp (r : Route) : finish (finish r) = finish r.
Proof. unfold finish. simpl. by rewrite !dedupe_idemp. Qed.

Lemma finish_all_lookup (refs : list nat) (h : list Route) (ref : nat) :
  finish_all refs h !! ref
  = if bool_decide (ref ∈ refs) then finish <$> h !! ref else h !! ref.
Proof.
  revert h. induction refs as [|a refs IH]; intros h; [done|].
  unfold finish_all in *. simpl. rewrite IH.
  destruct (decide (a = ref)) as [->|Hne].
  - rewrite list_lookup_alter_eq.
    rewrite (bool_decide_eq_true_2 (ref ∈ ref :: refs)) by left.
    case_bool_decide; [|done].
    destruct (h !! ref); simpl; [|done]. by rewrite finish_idemp.
  - rewrite list_lookup_alter_ne by done.
    rewrite (bool_decide_ext (ref ∈ a :: refs) (ref ∈ refs)); [done|].
    rewrite elem_of_cons. intuition congruence.
Qed.

Lemma elem_of_deref (h : list Route) (refs : list nat) (r : Route) :
  r ∈ deref h refs <-> exists ref, ref ∈ refs /\ h !! ref = Some r.
Proof. unfold deref. by rewrite list_elem_of_omap. Qed.

(** Every route [parseSchedule] returns is the closing pass applied to an
    object the loop has accumulated. *)
Lemma parseSchedule_output (rows : list (list cell)) (r : Route) :
  r ∈ regular (parseSchedule rows) ++ friday (parseSchedule rows) ->
  exists ref acc,
    ref ∈ routesRegular (scan rows) ++ routesFriday (scan rows)
    /\ heap (scan rows) !! ref = Some acc
    /\ r = finish acc.
Proof.
  unfold parseSchedule. simpl. set (st := scan rows).
  rewrite elem_of_app, !elem_of_deref.
  intros [(ref & Hin & Hr)|(ref & Hin & Hr)];
    (assert (Hin' : ref ∈ routesRegular st ++ routesFriday st)
       by (apply elem_of_app; auto));
    rewrite finish_all_lookup, bool_decide_eq_true_2 in Hr by done;
    destruct (heap st !! ref) as [acc|] eqn:Hacc; simplify_eq/=;
    eauto 10.
Qed.

(** C6: after [parseSchedule] completes, every route of either partition
    comes from an object [acc] the loop has accumulated, and its [toDSC]
    holds each distinct value of [toDSC acc] exactly once, ordered by first
    appearance in [toDSC acc]; the same holds for [fromDSC]. *)
Theorem times_deduplicated_in_first_seen_order (rows : list (list cell)) (r : Route) :
  r ∈ regular (parseSchedule rows) ++ friday (parseSchedule rows) ->
  exists ref acc,
    ref ∈ routesRegular (scan rows) ++ routesFriday (scan rows)
    /\ heap (scan rows) !! ref = Some acc
    /\ first_seen (toDSC acc) (toDSC r)
    /\ first_seen (fromDSC acc) (fromDSC r).
Proof.
  intros Hr. destruct (parseSchedule_output rows r Hr) as (ref & acc & Hin & Hacc & ->).
  exists ref, acc. repeat split; try done; simpl; apply dedupe_first_seen.
Qed.

Lemma times_deduplicated_witness :
  exists ref acc,
    ref ∈ routesRegular (scan classifier_rows) ++ routesFriday (scan classifier_rows)
    /\ heap (scan classifier_rows) !! ref = Some acc
    /\ first_seen (toDSC acc) ["08:00"; "09:00"]
    /\ first_seen (fromDSC acc) ["6:00 PM"; "7:12 PM"].
Proof.
  apply (times_deduplicated_in_first_seen_order classifier_rows
           {| code := "R1"; name := "Main Route"; details := "Via X";
              toDSC := ["08:00"; "09:00"]; fromDSC := ["6:00 PM"; "7:12 PM"];
              display := Some "R1 — Main Route" |}).
  vm_compute. left.
Defined.

(** ** The filter *)

Lemma is_empty_true (s : string) : Str.is_empty s = true <-> s = "".
Proof. destruct s; simpl; split; congruence. Qed.

Lemma toLowerCase_empty (s : string) :
  Str.is_empty (Str.toLowerCase s) = Str.is_empty s.
Proof. by destruct s. Qed.

Lemma prefix_spec (p s : string) :
  String.prefix p s = true <-> exists post : string, s = (p ++ post)%string.
Proof.
  revert s. induction p as [|c p IH]; intros s.
  - destruct s; simpl; split; eauto.
  - destruct s as [|d s]; simpl.
    + split; [done|]. by intros [post Hpost].
    + destruct (ascii_dec c d) as [->|Hne].
      * rewrite IH. split; intros [post Hpost]; exists post; congruence.
      * split; [done|]. intros [post Hpost]. congruence.
Qed.

Lemma includes_spec (text needle : string) :
  Str.includes text needle = true
  <-> exists pre post : string, text = (pre ++ needle ++ post)%string.
Proof.
  induction text as [|c text IH].
  - change (Str.includes "" needle) with (String.prefix needle "" || false).
    rewrite orb_true_iff, prefix_spec. split.
    + intros [[post Hpost]|?]; [|done]. by exists "", post.
    + intros (pre & post & H). left. destruct pre; [by exists post|done].
  - change (Str.includes (String c text) needle)
      with (String.prefix needle (String c text) || Str.includes text needle).
    rewrite orb_true_iff, prefix_spec, IH. split.
    + intros [[post Hpost]|(pre & post & Hpost)].
      * by exists "", post.
      * exists (String c pre), post. simpl. by rewrite Hpost.
    + intros (pre & post & H). destruct pre as [|d pre]; simpl in H.
      * left. by exists post.
      * right. exists pre, post. congruence.
Qed.

Lemma filter_filter {A} (f g : A -> bool) (l : list A) :
  List.filter g (List.filter f l) = List.filter (fun x => f x && g x) l.
Proof.
  induction l as [|x l IH]; [done|]. simpl.
  destruct (f x); simpl; [destruct (g x)|]; by rewrite IH.
Qed.

Lemma filter_all {A} (f : A -> bool) (l : list A) :
  (forall x, f x = true) -> List.filter f l = l.
Proof. intros H. induction l as [|x l IH]; simpl; [done|]. by rewrite H, IH. Qed.

Lemma filter_sublist {A} (f : A -> bool) (l : list A) : sublist (List.filter f l) l.
Proof.
  induction l as [|x l IH]; simpl; [constructor|].
  destruct (f x); by constructor.
Qed.

Lemma keeps_kept (selectedCode query : string) (r : Route) :
  keeps selectedCode query r = true <-> kept selectedCode query r.
Proof.
  unfold keeps, kept, contains_ci, hay, joined.
  rewrite andb_true_iff, !orb_true_iff, toLowerCase_empty, !is_empty_true,
    String.eqb_eq, includes_spec. done.
Qed.

Lemma render_filtered_keeps (routes : list Route) (selectedCode query : string) :
  render_filtered routes selectedCode query
  = List.filter (keeps selectedCode query) routes.
Proof.
  unfold render_filtered, keeps.
  destruct (Str.is_empty selectedCode), (Str.is_empty (Str.toLowerCase query)); simpl.
  - by rewrite filter_all.
  - done.
  - apply filter_ext. intros r. by rewrite andb_true_r.
  - by rewrite filter_filter.
Qed.

(** C7: the filter returns an order-preserving subsequence of its input
    that keeps a route exactly when the selected code is empty or equals
    the route's code, and the query is empty or occurs, letter case apart,
    in the space-joined concatenation of the route's code, name, details
    and times. *)
Theorem filter_contract (routes : list Route) (selectedCode query : string) :
  sublist (render_filtered routes selectedCode query) routes
  /\ exists keep : Route -> bool,
       (forall r, keep r = true <-> kept selectedCode query r)
       /\ render_filtered routes selectedCode query = List.filter keep routes.
Proof.
  rewrite render_filtered_keeps. split; [apply filter_sublist|].
  exists (keeps selectedCode query). split; [apply keeps_kept | done].
Qed.

Example filter_conjunction :
  let routes := regular (parseSchedule
                  [ [Text "R1"; Text "7:00"; Text "Main"];
                    [Text "R2"; Text "8:00"; Text "Campus"] ]) in
  List.map code (render_filtered routes "R1" "main") = ["R1"]
  /\ render_filtered routes "" "zzz" = [].
Proof. vm_compute. done. Qed.

(** ** Rows the parser ignores *)


(** The same happens with the number 0 in the first cell, which
    [row[0] || ""] reads as the empty text. *)
Example zero_code_row_extends_route :
  let st := scan [opening_row] in
  holds_something (cell_at zero_code_row 0) = true
  /\ toDSC <$> heap (step st zero_code_row) = [["7:00"; "8:00"]].
Proof. vm_compute. done. Qed.



(** ** The partition follows the mode *)

Lemma scan_snoc (rows : list (list cell)) (row : list cell) :
  scan (rows ++ [row]) = step (scan rows) row.
Proof. unfold scan. by rewrite fold_left_app. Qed.

Lemma scan_app (pre post : list (list cell)) :
  scan (pre ++ post) = fold_left step post (scan pre).
Proof. unfold scan. by rewrite fold_left_app. Qed.

Lemma marker_not_all_empty (row : list cell) :
  is_friday_marker row = true -> all_empty row = false.
Proof.
  unfold is_friday_marker, all_empty. destruct (trimmed row 0); [|done].
  intros H. vm_compute in H. discriminate H.
Qed.

(** What one row does to the mode and to each partition. *)
Lemma step_mode (st : State) (row : list cell) :
  mode (step st row) = if is_friday_marker row then friday_mode else mode st.
Proof.
  unfold step. destruct (all_empty row) eqn:Hall.
  - destruct (is_friday_marker row) eqn:Hm; [|done].
    apply marker_not_all_empty in Hm. congruence.
  - destruct (is_friday_marker row); [done|].
    destruct (is_header row); [done|].
    destruct (looksLikeRouteCode row); [done|].
    destruct (current st); [|done]. by destruct (Str.is_empty _).
Qed.

Lemma step_routesFriday (st : State) (row : list cell) :
  routesFriday (step st row)
  = match opens_route row, mode st with
    | true, friday_mode => routesFriday st ++ [length (heap st)]
    | _, _ => routesFriday st
    end.
Proof.
  unfold step, opens_route. destruct (all_empty row); [done|].
  destruct (is_friday_marker row); [done|].
  destruct (is_header row); [done|].
  destruct (looksLikeRouteCode row); simpl.
  - by destruct (mode st).
  - destruct (current st); [|done]. by destruct (Str.is_empty _).
Qed.

Lemma step_routesRegular (st : State) (row : list cell) :
  routesRegular (step st row)
  = match opens_route row, mode st with
    | true, regular_mode => routesRegular st ++ [length (heap st)]
    | _, _ => routesRegular st
    end.
Proof.
  unfold step, opens_route. destruct (all_empty row); [done|].
  destruct (is_friday_marker row); [done|].
  destruct (is_header row); [done|].
  destruct (looksLikeRouteCode row); simpl.
  - by destruct (mode st).
  - destruct (current st); [|done]. by destruct (Str.is_empty _).
Qed.

Lemma fold_step_routesFriday (post : list (list cell)) (st : State) (ref : nat) :
  ref ∈ routesFriday st -> ref ∈ routesFriday (fold_left step post st).
Proof.
  revert st. induction post as [|row post IH]; intros st Hin; [done|].
  simpl. apply IH. rewrite step_routesFriday.
  destruct (opens_route row), (mode st); try done. apply elem_of_app. by left.
Qed.

Lemma fold_step_routesRegular (post : list (list cell)) (st : State) (ref : nat) :
  ref ∈ routesRegular st -> ref ∈ routesRegular (fold_left step post st).
Proof.
  revert st. induction post as [|row post IH]; intros st Hin; [done|].
  simpl. apply IH. rewrite step_routesRegular.
  destruct (opens_route row), (mode st); try done. apply elem_of_app. by left.
Qed.

(** The mode starts as regular and is Friday exactly from the first marker
    row on. *)
Lemma mode_friday_iff (rows : list (list cell)) :
  mode (scan rows) = friday_mode
  <-> Exists (fun row => is_friday_marker row = true) rows.
Proof.
  induction rows as [|row rows IH] using rev_ind.
  - split; [done|]. intros H. by apply Exists_nil in H.
  - rewrite scan_snoc, step_mode, Exists_app, Exists_cons, Exists_nil.
    destruct (is_friday_marker row); [tauto|]. rewrite IH.
    split; [tauto|]. intros [?|[?|?]]; done.
Qed.

(** The references a partition holds are the routes opened while the mode
    selected it. *)
Lemma routesFriday_iff (rows : list (list cell)) (ref : nat) :
  ref ∈ routesFriday (scan rows)
  <-> exists pre row post,
        rows = pre ++ row :: post /\ opens_route row = true
        /\ ref = length (heap (scan pre)) /\ mode (scan pre) = friday_mode.
Proof.
  split.
  - induction rows as [|row rows IH] using rev_ind.
    + intros H. by apply elem_of_nil in H.
    + rewrite scan_snoc, step_routesFriday. intros Hin.
      assert (Hold : ref ∈ routesFriday (scan rows) ->
                exists pre row0 post,
                  rows ++ [row] = pre ++ row0 :: post /\ opens_route row0 = true
                  /\ ref = length (heap (scan pre)) /\ mode (scan pre) = friday_mode).
      { intros H. destruct (IH H) as (pre & row0 & post & -> & ? & ? & ?).
        exists pre, row0, (post ++ [row]). by rewrite <- app_assoc. }
      destruct (opens_route row) eqn:Hopen; [|auto].
      destruct (mode (scan rows)) eqn:Hmode; [auto|].
      apply elem_of_app in Hin as [Hin|Hin]; [auto|].
      apply list_elem_of_singleton in Hin. by exists rows, row, [].
  - intros (pre & row & post & -> & Hopen & -> & Hmode).
    rewrite (scan_app pre (row :: post)). simpl.
    apply fold_step_routesFriday. rewrite step_routesFriday, Hopen, Hmode.
    apply elem_of_app. right. by left.
Qed.

Lemma routesRegular_iff (rows : list (list cell)) (ref : nat) :
  ref ∈ routesRegular (scan rows)
  <-> exists pre row post,
        rows = pre ++ row :: post /\ opens_route row = true
        /\ ref = length (heap (scan pre)) /\ mode (scan pre) = regular_mode.
Proof.
  split.
  - induction rows as [|row rows IH] using rev_ind.
    + intros H. by apply elem_of_nil in H.
    + rewrite scan_snoc, step_routesRegular. intros Hin.
      assert (Hold : ref ∈ routesRegular (scan rows) ->
                exists pre row0 post,
                  rows ++ [row] = pre ++ row0 :: post /\ opens_route row0 = true
                  /\ ref = length (heap (scan pre)) /\ mode (scan pre) = regular_mode).
      { intros H. destruct (IH H) as (pre & row0 & post & -> & ? & ? & ?).
        exists pre, row0, (post ++ [row]). by rewrite <- app_assoc. }
      destruct (opens_route row) eqn:Hopen; [|auto].
      destruct (mode (scan rows)) eqn:Hmode; [|auto].
      apply elem_of_app in Hin as [Hin|Hin]; [auto|].
      apply list_elem_of_singleton in Hin. by exists rows, row, [].
  - intros (pre & row & post & -> & Hopen & -> & Hmode).
    rewrite (scan_app pre (row :: post)). simpl.
    apply fold_step_routesRegular. rewrite step_routesRegular, Hopen, Hmode.
    apply elem_of_app. right. by left.
Qed.

Lemma step_heap_length (st : State) (row : list cell) :
  length (heap (step st row))
  = if opens_route row then S (length (heap st)) else length (heap st).
Proof.
  unfold step, opens_route. destruct (all_empty row); [done|].
  destruct (is_friday_marker row); [done|].
  destruct (is_header row); [done|].
  destruct (looksLikeRouteCode row); simpl.
  - rewrite length_app. simpl. lia.
  - destruct (current st); [|done].
    destruct (Str.is_empty _); [|done]. simpl. by rewrite length_alter.
Qed.

Lemma step_heap_lookup (st : State) (row : list cell) (ref : nat) (r : Route) :
  heap st !! ref = Some r ->
  exists r', heap (step st row) !! ref = Some r' /\ code r' = code r.
Proof.
  intros Hr. unfold step. destruct (all_empty row); [eauto|].
  destruct (is_friday_marker row); [eauto|].
  destruct (is_header row); [eauto|].
  destruct (looksLikeRouteCode row); simpl.
  - exists r. split; [|done]. apply lookup_app_l_Some. done.
  - destruct (current st) as [cur|]; [|eauto].
    destruct (Str.is_empty _); [|eauto]. simpl.
    destruct (decide (cur = ref)) as [->|Hne].
    + rewrite list_lookup_alter_eq, Hr. simpl. eauto.
    + rewrite list_lookup_alter_ne by done. eauto.
Qed.

Lemma fold_step_heap_lookup (post : list (list cell)) (st : State) (ref : nat) (r : Route) :
  heap st !! ref = Some r ->
  exists r', heap (fold_left step post st) !! ref = Some r' /\ code r' = code r.
Proof.
  revert st r. induction post as [|row post IH]; intros st r Hr; [eauto|].
  simpl. destruct (step_heap_lookup st row ref r Hr) as (r1 & Hr1 & <-). eauto.
Qed.

(** References are allocated in increasing order: those a partition holds
    lie below the size of the heap. *)
Lemma refs_bounded (rows : list (list cell)) (ref : nat) :
  ref ∈ routesRegular (scan rows) ++ routesFriday (scan rows) ->
  (ref < length (heap (scan rows)))%nat.
Proof.
  induction rows as [|row rows IH] using rev_ind.
  - intros H. by apply elem_of_nil in H.
  - rewrite scan_snoc, step_routesRegular, step_routesFriday, step_heap_length.
    rewrite elem_of_app in IH. intros H.
    assert (Hcases : ref = length (heap (scan rows))
                     \/ (ref < length (heap (scan rows)))%nat).
    { destruct (opens_route row), (mode (scan rows));
        rewrite ?elem_of_app, ?list_elem_of_singleton in H; intuition auto. }
    destruct (opens_route row) eqn:Hopen.
    + destruct Hcases as [->|?]; lia.
    + destruct Hcases as [->|?]; [|done].
      exfalso. rewrite elem_of_app in H.
      assert (length (heap (scan rows)) < length (heap (scan rows)))%nat; [|lia].
      apply IH. destruct (mode (scan rows)); done.
Qed.

Lemma fold_step_not_regular (post : list (list cell)) (st : State) (ref : nat) :
  (ref < length (heap st))%nat -> ref ∉ routesRegular st ->
  ref ∉ routesRegular (fold_left step post st).
Proof.
  revert st. induction post as [|row post IH]; intros st Hlt Hnot; [done|].
  simpl. apply IH.
  - rewrite step_heap_length. destruct (opens_route row); lia.
  - rewrite step_routesRegular. destruct (opens_route row), (mode st); try done.
    rewrite elem_of_app, list_elem_of_singleton. intros [?| ->]; [done|lia].
Qed.

Lemma fold_step_not_friday (post : list (list cell)) (st : State) (ref : nat) :
  (ref < length (heap st))%nat -> ref ∉ routesFriday st ->
  ref ∉ routesFriday (fold_left step post st).
Proof.
  revert st. induction post as [|row post IH]; intros st Hlt Hnot; [done|].
  simpl. apply IH.
  - rewrite step_heap_length. destruct (opens_route row); lia.
  - rewrite step_routesFriday. destruct (opens_route row), (mode st); try done.
    rewrite elem_of_app, list_elem_of_singleton. intros [?| ->]; [done|lia].
Qed.

Lemma step_opens_heap (st : State) (row : list cell) :
  opens_route row = true -> heap (step st row) = heap st ++ [new_route row].
Proof.
  unfold opens_route, step. intros H.
  apply andb_prop in H as [H Hcode]. apply andb_prop in H as [H Hheader].
  apply andb_prop in H as [Hall Hmarker].
  apply negb_true_iff in Hall, Hmarker, Hheader.
  by rewrite Hall, Hmarker, Hheader, Hcode.
Qed.

Lemma deref_finish_all (refs refs' : list nat) (h : list Route) :
  refs' ⊆ refs ->
  deref (finish_all refs h) refs' = omap (fun ref => finish <$> h !! ref) refs'.
Proof.
  intros Hsub. unfold deref. apply list_omap_ext.
  apply Forall2_same_length_lookup. split; [done|].
  intros i ref ref' Href Href'. simplify_eq.
  rewrite finish_all_lookup, bool_decide_eq_true_2; [done|].
  apply Hsub. eapply list_elem_of_lookup_2. eauto.
Qed.

(** C5: let a row open a route after the rows [pre] and before the rows
    [post].  The route object it allocates is referenced by the Friday
    partition exactly when the mode was Friday as that row was processed,
    and by the regular partition exactly when the mode was regular,
    whatever the letter the code starts with; the mode is Friday exactly
    when a row before matched the Friday marker; and the two lists
    [parseSchedule] returns hold the objects the two partitions reference,
    in order, after the closing pass. *)
Theorem partition_follows_mode (pre post : list (list cell)) (row : list cell) :
  opens_route row = true ->
  let before := scan pre in
  let final := scan (pre ++ row :: post) in
  let ref := length (heap before) in
  (exists acc, heap final !! ref = Some acc /\ code acc = trimmed row 0)
  /\ (ref ∈ routesFriday final <-> mode before = friday_mode)
  /\ (ref ∈ routesRegular final <-> mode before = regular_mode)
  /\ (mode before = friday_mode
      <-> Exists (fun row' => is_friday_marker row' = true) pre)
  /\ friday (parseSchedule (pre ++ row :: post))
     = omap (fun ref' => finish <$> heap final !! ref') (routesFriday final)
  /\ regular (parseSchedule (pre ++ row :: post))
     = omap (fun ref' => finish <$> heap final !! ref') (routesRegular final).
Proof.
  intros Hopen before final ref.
  assert (Hfinal : final = fold_left step post (step before row))
    by (unfold final; by rewrite scan_app).
  assert (Hbound : forall x, x ∈ routesRegular before ++ routesFriday before ->
                     (x < ref)%nat) by apply refs_bounded.
  assert (Hlen : (ref < length (heap (step before row)))%nat)
    by (rewrite step_heap_length, Hopen; unfold ref; lia).
  split; [|split; [|split; [|split; [|split]]]].
  - rewrite Hfinal.
    destruct (fold_step_heap_lookup post (step before row) ref (new_route row))
      as (acc & Hacc & Hcode); [|by exists acc].
    rewrite step_opens_heap by done. unfold ref.
    by rewrite lookup_app_r, Nat.sub_diag by lia.
  - split.
    + intros Hin. destruct (mode before) eqn:Hmode; [|done]. exfalso.
      revert Hin. rewrite Hfinal. apply fold_step_not_friday; [done|].
      rewrite step_routesFriday, Hopen, Hmode. intros Hin.
      assert (ref < ref)%nat; [|lia].
      apply Hbound, elem_of_app. by right.
    + intros Hmode. apply routesFriday_iff. by exists pre, row, post.
  - split.
    + intros Hin. destruct (mode before) eqn:Hmode; [done|]. exfalso.
      revert Hin. rewrite Hfinal. apply fold_step_not_regular; [done|].
      rewrite step_routesRegular, Hopen, Hmode. intros Hin.
      assert (ref < ref)%nat; [|lia].
      apply Hbound, elem_of_app. by left.
    + intros Hmode. apply routesRegular_iff. by exists pre, row, post.
  - apply mode_friday_iff.
  - unfold parseSchedule. simpl. fold final.
    apply deref_finish_all. intros x Hx. apply elem_of_app. by right.
  - unfold parseSchedule. simpl. fold final.
    apply deref_finish_all. intros x Hx. apply elem_of_app. by left.
Qed.

Lemma partition_follows_mode_witness :
  length (heap (scan [ [Text "Friday Schedule"]; [] ]))
  ∈ routesFriday (scan ([ [Text "Friday Schedule"]; [] ]
                        ++ [Text "R1"; Text "08:00"] :: [ [Text ""; Text "09:00"] ]))
  <-> mode (scan [ [Text "Friday Schedule"]; [] ]) = friday_mode.
Proof.
  assert (Hopen : opens_route [Text "R1"; Text "08:00"] = true)
    by (vm_compute; reflexivity).
  exact (proj1 (proj2 (partition_follows_mode
                         [ [Text "Friday Schedule"]; [] ]
                         [ [Text ""; Text "09:00"] ]
                         [Text "R1"; Text "08:00"] Hopen))).
Defined.

(** The letter of the code plays no part: an F-coded route opened before
    any marker is regular, an R-coded route opened after one is Friday. *)
Example partition_ignores_code_letter :
  let s := parseSchedule [ [Text "F3"; Text "7:00"]; [Text "Friday Schedule"];
                           [Text "R12"; Text "8:00"] ] in
  List.map code (regular s) = ["F3"] /\ List.map code (friday s) = ["R12"].
Proof. vm_compute. done. Qed.

(** ** The fields of a route *)

Lemma isFriday_not_key (r : Route) : "isFriday" ∉ keys r.
Proof.
  unfold keys. intros H.
  destruct (display r); simpl in H;
    repeat (apply elem_of_cons in H as [H|H]; [discriminate H|]);
    by apply elem_of_nil in H.
Qed.

(** C2, as stated, fails: the route the classifier rows yield was collected
    in Friday mode, yet its object has no field [isFriday], and the one
    Friday indication the code derives from a route, the badge of
    [routeCard], reads "Regular". *)
Lemma isFriday_field_as_stated_fails :
  exists r, friday (parseSchedule classifier_rows) = [r]
    /\ ("isFriday" ∉ keys r)
    /\ badge r = "Regular".
Proof.
  eexists. split; [vm_compute; reflexivity|].
  split; [apply isFriday_not_key | reflexivity].
Qed.

(** C2 (amended): every route [parseSchedule] produces carries exactly the
    fields [code], [name], [details], [toDSC], [fromDSC] and [display] and
    no field [isFriday]; the Friday badge [routeCard] shows for it is
    derived from the code alone: it reads "Friday" exactly when the code
    starts with a capital "F", whatever the mode the route was collected
    in. *)
Theorem route_fields (rows : list (list cell)) (r : Route) :
  r ∈ regular (parseSchedule rows) ++ friday (parseSchedule rows) ->
  keys r = ["code"; "name"; "details"; "toDSC"; "fromDSC"; "display"]
  /\ ("isFriday" ∉ keys r)
  /\ (badge r = "Friday" <-> Str.startsWith (code r) "F" = true).
Proof.
  intros Hr. destruct (parseSchedule_output rows r Hr) as (ref & acc & _ & _ & ->).
  split; [reflexivity|]. split; [apply isFriday_not_key|].
  unfold badge. destruct (Str.startsWith _ _); split; congruence.
Qed.

Lemma route_fields_witness :
  keys (finish (new_route [Text "F3"; Text "7:00"]))
  = ["code"; "name"; "details"; "toDSC"; "fromDSC"; "display"]
  /\ ("isFriday" ∉ keys (finish (new_route [Text "F3"; Text "7:00"])))
  /\ (badge (finish (new_route [Text "F3"; Text "7:00"])) = "Friday"
      <-> Str.startsWith (code (finish (new_route [Text "F3"; Text "7:00"]))) "F" = true).
Proof.
  apply (route_fields [ [Text "F3"; Text "7:00"] ]).
  vm_compute. left.
Defined.

(** ** Numeric times *)

Lemma formatTime_render12 (hh mm : Z) :
  0 <= hh < 24 -> formatTime hh mm = render12 hh mm.
Proof.
  intros Hhh. unfold formatTime, render12.
  assert (Hsuffix : (if 12 <=? hh then "PM" else "AM") = (if hh <? 12 then "AM" else "PM"))
    by (destruct (Z.leb_spec 12 hh), (Z.ltb_spec hh 12); (done || lia)).
  assert (Hshown : (if Z.rem hh 12 =? 0 then 12 else Z.rem hh 12)
                   = (if (hh =? 0) || (hh =? 12) then 12 else hh mod 12)).
  { rewrite Z.rem_mod_nonneg by lia.
    destruct (Z.eqb_spec hh 0) as [->|H0]; [done|].
    destruct (Z.eqb_spec hh 12) as [->|H12]; [done|]. simpl.
    destruct (Z.eqb_spec (hh mod 12) 0) as [Hm|Hm]; [|done]. exfalso.
    pose proof (Z.div_mod hh 12 ltac:(lia)) as Hdm.
    assert (hh / 12 = 0 \/ hh / 12 = 1) as [Hq|Hq].
    { assert (0 <= hh / 12 < 2); [|lia].
      split; [apply Z.div_pos; lia | apply Z.div_lt_upper_bound; lia]. }
    all: lia. }
  by rewrite Hsuffix, Hshown.
Qed.

Lemma binary_round_aux_not_negative (mx ex : Z) (lx : location) :
  not_negative (binary_round_aux Num.prec Num.emax false mx ex lx).
Proof.
  unfold binary_round_aux.
  destruct (shr_fexp _ _ mx ex lx) as [mrs' e'].
  destruct (shr_fexp _ _ _ e' loc_Exact) as [mrs'' e''].
  destruct (shr_m mrs''); simpl; [done| |done].
  by destruct (_ <=? _).
Qed.

Lemma mul_not_negative (x : Num.number) (m : positive) (e : Z) :
  not_negative x -> not_negative (Num.mul x (S754_finite false m e)).
Proof.
  destruct x as [s|s| |s mx ex]; simpl; try done.
  destruct s; [done|]. intros _. apply binary_round_aux_not_negative.
Qed.

Lemma Math_round_not_negative (x : Num.number) :
  not_negative x -> 0 <= Num.Math_round x.
Proof.
  destruct x as [s|s| |s m e]; simpl; try done.
  destruct s; [done|]. intros _. unfold Num.mantissa. simpl.
  destruct (Z.leb_spec 0 e).
  - apply Z.mul_nonneg_nonneg; [done|]. by apply Z.pow_nonneg.
  - apply Z.div_pos.
    + assert (0 <= 2 ^ (- e)) by (by apply Z.pow_nonneg). lia.
    + apply Z.pow_pos_nonneg; lia.
Qed.

Lemma of_Z_24 : Num.of_Z 24 = S754_finite false 6755399441055744 (-48).
Proof. vm_compute. reflexivity. Qed.

Lemma of_Z_60 : Num.of_Z 60 = S754_finite false 8444249301319680 (-47).
Proof. vm_compute. reflexivity. Qed.

Lemma of_Z_1 : Num.of_Z 1 = S754_finite false 4503599627370496 (-52).
Proof. vm_compute. reflexivity. Qed.

Lemma of_Z_0 : Num.of_Z 0 = S754_zero false.
Proof. reflexivity. Qed.

Lemma totalMinutes_nonneg (t : Num.number) :
  Num.leb (Num.of_Z 0) t = true -> 0 <= totalMinutes t.
Proof.
  intros Hle. unfold totalMinutes. rewrite of_Z_24, of_Z_60.
  apply Math_round_not_negative, mul_not_negative, mul_not_negative.
  destruct t as [s|s| |s m e]; try done. by destruct s.
Qed.

Lemma day_fraction_rendering (t : Num.number) :
  Num.leb (Num.of_Z 0) t = true -> Num.ltb t (Num.of_Z 1) = true ->
  totalMinutes t < 1440 ->
  normalizeTime (Number t)
  = render12 (totalMinutes t / 60) (totalMinutes t mod 60).
Proof.
  intros Hle Hlt Hday.
  pose proof (totalMinutes_nonneg t Hle) as Hpos.
  assert (Hnan : Num.isNaN t = false) by (by destruct t).
  unfold normalizeTime, normalizeNumber. rewrite Hnan, Hle, Hlt. cbn [andb].
  fold (totalMinutes t). rewrite Z.rem_mod_nonneg by lia.
  apply formatTime_render12. split.
  - apply Z.div_pos; lia.
  - apply Z.div_lt_upper_bound; lia.
Qed.

Lemma digits2_pos_bounds (m : positive) :
  2 ^ (Zpos (digits2_pos m) - 1) <= Zpos m < 2 ^ Zpos (digits2_pos m).
Proof.
  induction m as [m IH|m IH|]; simpl digits2_pos.
  - rewrite Pos2Z.inj_succ. replace (Z.succ (Zpos (digits2_pos m)) - 1)
      with (Z.succ (Zpos (digits2_pos m) - 1)) by lia.
    rewrite !Z.pow_succ_r by lia. lia.
  - rewrite Pos2Z.inj_succ. replace (Z.succ (Zpos (digits2_pos m)) - 1)
      with (Z.succ (Zpos (digits2_pos m) - 1)) by lia.
    rewrite !Z.pow_succ_r by lia. lia.
  - simpl. lia.
Qed.

Lemma SFcompare_positive (m1 m2 : positive) (e1 e2 : Z) :
  SFcompare (S754_finite false m1 e1) (S754_finite false m2 e2)
  = Some match e1 ?= e2 with
         | Lt => Lt
         | Gt => Gt
         | Eq => (m1 ?= m2)%positive
         end.
Proof. reflexivity. Qed.

(** A well-formed number strictly between 1 and 24 has its exponent
    between -52 and -48 and a full 53-bit mantissa. *)
Lemma hours_shape (t : Num.number) :
  Num.valid t = true ->
  Num.ltb (Num.of_Z 1) t = true -> Num.ltb t (Num.of_Z 24) = true ->
  exists m e, t = S754_finite false m e
    /\ -52 <= e <= -48
    /\ 2 ^ 52 <= Zpos m < 2 ^ 53
    /\ (e = -52 -> 2 ^ 52 < Zpos m)
    /\ (e = -48 -> Zpos m < 24 * 2 ^ 48).
Proof.
  rewrite of_Z_1, of_Z_24. intros Hvalid H1 H24.
  destruct t as [s|s| |s m e]; [by destruct s|by destruct s|done|].
  destruct s; [done|].
  unfold Num.ltb, SFltb in H1, H24. rewrite SFcompare_positive in H1, H24.
  change (2 ^ 52) with 4503599627370496.
  change (2 ^ 53) with 9007199254740992.
  change (2 ^ 48) with 281474976710656.
  assert (He1 : -52 <= e /\ (e = -52 -> 4503599627370496 < Zpos m)).
  { destruct (Z.compare_spec (-52) e) as [<-| |]; [|lia|done].
    destruct (Pos.compare_spec 4503599627370496 m); (done || lia). }
  assert (He24 : e <= -48 /\ (e = -48 -> Zpos m < 24 * 281474976710656)).
  { destruct (Z.compare_spec e (-48)) as [->| |]; [|lia|done].
    destruct (Pos.compare_spec m 6755399441055744); (done || lia). }
  assert (Hd : Zpos (digits2_pos m) = 53).
  { cbv beta iota delta [Num.valid valid_binary bounded canonical_mantissa fexp emin
                           Num.prec Num.emax] in Hvalid.
    apply andb_prop in Hvalid as [Hcanon _]. apply Z.eqb_eq in Hcanon. lia. }
  pose proof (digits2_pos_bounds m) as Hb. rewrite Hd in Hb.
  change (2 ^ (53 - 1)) with 4503599627370496 in Hb.
  change (2 ^ 53) with 9007199254740992 in Hb.
  exists m, e. repeat split; tauto || lia.
Qed.

Lemma hours_floor (t : Num.number) :
  Num.valid t = true ->
  Num.ltb (Num.of_Z 1) t = true -> Num.ltb t (Num.of_Z 24) = true ->
  1 <= Num.Math_floor t <= 23.
Proof.
  intros Hvalid H1 H24.
  destruct (hours_shape t Hvalid H1 H24) as (m & e & -> & He & Hm & Hlo & Hhi).
  change (2 ^ 52) with 4503599627370496 in *.
  change (2 ^ 53) with 9007199254740992 in *.
  change (2 ^ 48) with 281474976710656 in *.
  cbv beta iota delta [Num.Math_floor Num.mantissa cond_Zopp].
  destruct (Z.leb_spec 0 e); [lia|].
  assert (Hcases : e = -52 \/ e = -51 \/ e = -50 \/ e = -49 \/ e = -48) by lia.
  destruct Hcases as [->|[->|[->|[->| ->]]]].
  - change (2 ^ (- (-52))) with 4503599627370496.
    split; [apply Z.div_le_lower_bound | apply Z.lt_succ_r, Z.div_lt_upper_bound]; lia.
  - change (2 ^ (- (-51))) with 2251799813685248.
    split; [apply Z.div_le_lower_bound | apply Z.lt_succ_r, Z.div_lt_upper_bound]; lia.
  - change (2 ^ (- (-50))) with 1125899906842624.
    split; [apply Z.div_le_lower_bound | apply Z.lt_succ_r, Z.div_lt_upper_bound]; lia.
  - change (2 ^ (- (-49))) with 562949953421312.
    split; [apply Z.div_le_lower_bound | apply Z.lt_succ_r, Z.div_lt_upper_bound]; lia.
  - change (2 ^ (- (-48))) with 281474976710656.
    split; [apply Z.div_le_lower_bound | apply Z.lt_succ_r, Z.div_lt_upper_bound]; lia.
Qed.

Lemma hours_rendering (t : Num.number) :
  Num.valid t = true ->
  Num.ltb (Num.of_Z 1) t = true -> Num.ltb t (Num.of_Z 24) = true ->
  normalizeTime (Number t) = render12 (Num.Math_floor t) (minuteOfHour t).
Proof.
  intros Hvalid H1 H24.
  pose proof (hours_floor t Hvalid H1 H24) as Hfloor.
  assert (Hnan : Num.isNaN t = false).
  { destruct (hours_shape t Hvalid H1 H24) as (m & e & -> & _). done. }
  assert (Hnot : Num.ltb t (Num.of_Z 1) = false).
  { destruct (hours_shape t Hvalid H1 H24) as (m & e & -> & He & Hm & Hlo & _).
    rewrite of_Z_1. unfold Num.ltb, SFltb. rewrite SFcompare_positive.
    change (2 ^ 52) with 4503599627370496 in *.
    destruct (Z.compare_spec e (-52)) as [->| |]; [|lia|done].
    specialize (Hlo eq_refl). clear H1 H24 Hvalid Hfloor.
    destruct (Pos.compare_spec m 4503599627370496) as [Heq|Hlt|Hgt].
    - reflexivity.
    - exfalso. apply Pos2Z.pos_lt_pos in Hlt. lia.
    - reflexivity. }
  unfold normalizeTime, normalizeNumber.
  rewrite Hnan, Hnot, H1, H24, andb_false_r. cbn [andb].
  fold (minuteOfHour t). apply formatTime_render12. lia.
Qed.

(** C4: the code departs from the claim in the last half minute before
    midnight.  For the day fraction 0.9999 (23:59:51) the minutes round to
    1440, whichever way [t * 1440] is computed; [normalizeTime] passes hour
    24 to [formatTime], which shows every hour divisible by 12 as "12" and
    every hour from 12 on as "PM": the result is "12:00 PM", the text of
    noon, and not the rendering of 1440 minutes the claim describes. *)
Theorem day_fraction_near_midnight_shows_noon :
  let t := Num.lit 0.9999 in
  Num.valid t = true
  /\ Num.leb (Num.of_Z 0) t = true /\ Num.ltb t (Num.of_Z 1) = true
  /\ claimed_minutes t = 1440
  /\ Num.Math_round (Num.mul t (Num.of_Z 1440)) = 1440
  /\ claimed_rendering t = "0:00 PM"
  /\ normalizeTime (Number t) = "12:00 PM"
  /\ normalizeTime (Number t) <> claimed_rendering t
  /\ normalizeTime (Number t) = normalizeTime (Number (Num.lit 0.5))
  /\ normalizeTime (Number t) <> normalizeTime (Number (Num.of_Z 0)).
Proof. vm_compute. repeat split; congruence. Qed.

(** The product [t * 24 * 60] of the code is rounded twice and can reach
    the next half minute where [t * 1440] does not: the day fraction
    0.7982638888888888 is shown one minute later than the nearest minute. *)
Example two_products_round_apart :
  let t := half_minute_fraction in
  Num.valid t = true
  /\ Num.toString t = "0.7982638888888888"
  /\ claimed_minutes t = 1149
  /\ Num.Math_round (Num.mul t (Num.of_Z 1440)) = 1149
  /\ totalMinutes t = 1150
  /\ claimed_rendering t = "7:09 PM"
  /\ normalizeTime (Number t) = "7:10 PM".
Proof. vm_compute. done. Qed.

(** X15: for every number [t] with [0 <= t < 1] whose minute
    count [Math.round(t * 24 * 60)] is below 1440, [normalizeTime(t)] is
    the 12-hour rendering of that many minutes (hours 0 and 12 shown as
    "12", minutes zero-padded, "AM" exactly below hour 12); for every
    well-formed number [t] with [1 < t < 24] it is the 12-hour rendering
    of hour [Math.floor(t)] and minute [Math.round((t - Math.floor(t)) * 60)];
    and [normalizeTime] maps 0.5 to "12:00 PM", 0.25 to "6:00 AM" and 18.5
    to "6:30 PM".  The products are the binary64 ones the code computes. *)
Theorem numeric_time_rendering :
  (forall t : Num.number,
     Num.leb (Num.of_Z 0) t = true -> Num.ltb t (Num.of_Z 1) = true ->
     totalMinutes t < 1440 ->
     normalizeTime (Number t)
     = render12 (totalMinutes t / 60) (totalMinutes t mod 60))
  /\ (forall t : Num.number,
        Num.valid t = true ->
        Num.ltb (Num.of_Z 1) t = true -> Num.ltb t (Num.of_Z 24) = true ->
        normalizeTime (Number t) = render12 (Num.Math_floor t) (minuteOfHour t))
  /\ normalizeTime (Number (Num.lit 0.5)) = "12:00 PM"
  /\ normalizeTime (Number (Num.lit 0.25)) = "6:00 AM"
  /\ normalizeTime (Number (Num.lit 18.5)) = "6:30 PM".
Proof.
  split; [exact day_fraction_rendering|].
  split; [exact hours_rendering|].
  vm_compute. done.
Qed.

Lemma numeric_time_rendering_witness :
  normalizeTime (Number (Num.lit 0.5))
  = render12 (totalMinutes (Num.lit 0.5) / 60) (totalMinutes (Num.lit 0.5) mod 60)
  /\ normalizeTime (Number (Num.lit 18.5))
     = render12 (Num.Math_floor (Num.lit 18.5)) (minuteOfHour (Num.lit 18.5)).
Proof.
  destruct numeric_time_rendering as (Hday & Hhours & _).
  split; [apply Hday | apply Hhours]; vm_compute; reflexivity.
Defined.

(** ** Texts *)

Lemma append_nil_r (s : string) : (s ++ "")%string = s.
Proof. induction s as [|c s IH]; simpl; congruence. Qed.

Lemma append_assoc (s1 s2 s3 : string) :
  ((s1 ++ s2) ++ s3)%string = (s1 ++ (s2 ++ s3))%string.
Proof. induction s1 as [|c s1 IH]; simpl; congruence. Qed.

Lemma forallb_append (p : ascii -> bool) (s1 s2 : string) :
  Str.forallb p (s1 ++ s2) = Str.forallb p s1 && Str.forallb p s2.
Proof.
  induction s1 as [|c s1 IH]; simpl; [done|]. by rewrite IH, andb_assoc.
Qed.

Lemma forallb_map (p : ascii -> bool) (f : ascii -> ascii) (s : string) :
  (forall c, p (f c) = p c) -> Str.forallb p (Str.map f s) = Str.forallb p s.
Proof. intros Hp. induction s as [|c s IH]; simpl; [done|]. by rewrite Hp, IH. Qed.

Lemma map_fixed (p : ascii -> bool) (f : ascii -> ascii) (s : string) :
  (forall c, p c = true -> f c = c) -> Str.forallb p s = true -> Str.map f s = s.
Proof.
  intros Hp. induction s as [|c s IH]; simpl; [done|].
  intros [Hc Hs]%andb_prop. by rewrite Hp, IH.
Qed.

(** *** [trim] and [collapse] *)

Lemma single_spaced_weaken (s : string) :
  single_spaced true s = true -> single_spaced false s = true.
Proof.
  destruct s as [|c s]; simpl; [done|].
  destruct (Str.is_space c); [|done]. by rewrite andb_false_r.
Qed.

Lemma single_spaced_no_leading (s : string) :
  single_spaced true s = true -> no_leading_blank s = true.
Proof.
  destruct s as [|c s]; simpl; [done|].
  destruct (Str.is_space c); [|done]. by rewrite andb_false_r.
Qed.

Lemma collapse_single_spaced (b : bool) (s : string) :
  single_spaced b (Str.collapse_from b s) = true.
Proof.
  revert b. induction s as [|c s IH]; intros b; simpl; [done|].
  destruct (Str.is_space c) eqn:Hc.
  - destruct b; [apply IH|]. simpl. apply IH.
  - simpl. rewrite Hc. apply IH.
Qed.

Lemma collapse_fixed (b : bool) (s : string) :
  single_spaced b s = true -> Str.collapse_from b s = s.
Proof.
  revert b. induction s as [|c s IH]; intros b; simpl; [done|].
  destruct (Str.is_space c).
  - intros [[Hc Hb]%andb_prop Hs]%andb_prop.
    apply Ascii.eqb_eq in Hc. apply negb_true_iff in Hb. subst.
    by rewrite IH.
  - intros Hs. by rewrite IH.
Qed.

Lemma trimStart_fixed (s : string) :
  no_leading_blank s = true -> Str.trimStart s = s.
Proof. destruct s as [|c s]; simpl; [done|]. by intros ->%negb_true_iff. Qed.

Lemma trimStart_no_leading (s : string) :
  no_leading_blank (Str.trimStart s) = true.
Proof.
  induction s as [|c s IH]; simpl; [done|].
  destruct (Str.is_space c) eqn:Hc; [done|]. simpl. by rewrite Hc.
Qed.

Lemma trimStart_single_spaced (b : bool) (s : string) :
  single_spaced b s = true -> single_spaced false (Str.trimStart s) = true.
Proof.
  revert b. induction s as [|c s IH]; intros b; simpl; [done|].
  destruct (Str.is_space c) eqn:Hc.
  - intros [_ Hs]%andb_prop. by apply (IH true).
  - intros Hs. simpl. by rewrite Hc.
Qed.

Lemma trimEnd_no_leading (s : string) :
  no_leading_blank s = true -> no_leading_blank (Str.trimEnd s) = true.
Proof.
  destruct s as [|c s]; simpl; [done|].
  intros Hc. rewrite (proj1 (negb_true_iff _) Hc). simpl. done.
Qed.

Lemma trimEnd_single_spaced (b : bool) (s : string) :
  single_spaced b s = true -> single_spaced b (Str.trimEnd s) = true.
Proof.
  revert b. induction s as [|c s IH]; intros b; simpl; [done|].
  destruct (Str.is_space c) eqn:Hc; simpl.
  - intros [Hcb Hs]%andb_prop. destruct (Str.is_empty (Str.trimEnd s)); [done|].
    simpl. rewrite Hc, Hcb. by apply IH.
  - intros Hs. simpl. rewrite Hc. by apply IH.
Qed.

Lemma trimEnd_idemp (s : string) : Str.trimEnd (Str.trimEnd s) = Str.trimEnd s.
Proof.
  induction s as [|c s IH]; simpl; [done|].
  destruct (Str.is_space c && Str.is_empty (Str.trimEnd s)) eqn:Hc; [done|].
  simpl. by rewrite IH, Hc.
Qed.

(** A text that [collapse] and [trim] leave alone. *)
Lemma squash_fixed (s : string) :
  single_spaced false s = true -> no_leading_blank s = true ->
  Str.trimEnd s = s ->
  Str.trim (Str.collapse s) = s.
Proof.
  intros Hs Hlead Hend. unfold Str.collapse, Str.trim.
  by rewrite collapse_fixed, trimStart_fixed.
Qed.

Lemma squash_idemp (s : string) :
  Str.trim (Str.collapse (Str.trim (Str.collapse s))) = Str.trim (Str.collapse s).
Proof.
  apply squash_fixed; unfold Str.trim, Str.collapse.
  - apply trimEnd_single_spaced, (trimStart_single_spaced false),
      collapse_single_spaced.
  - apply trimEnd_no_leading, trimStart_no_leading.
  - apply trimEnd_idemp.
Qed.

Lemma map_is_empty (f : ascii -> ascii) (s : string) :
  Str.is_empty (Str.map f s) = Str.is_empty s.
Proof. by destruct s. Qed.

(** A character map that keeps blanks blank and the space a space commutes
    with [collapse] and [trim]. *)
Lemma squash_map (f : ascii -> ascii) (s : string) :
  (forall c, Str.is_space (f c) = Str.is_space c) -> f " "%char = " "%char ->
  Str.trim (Str.collapse (Str.map f s)) = Str.map f (Str.trim (Str.collapse s)).
Proof.
  intros Hf Hsp.
  assert (Hcollapse : forall b s, Str.collapse_from b (Str.map f s)
                                  = Str.map f (Str.collapse_from b s)).
  { clear s. intros b s. revert b. induction s as [|c s IH]; intros b; simpl; [done|].
    rewrite Hf. destruct (Str.is_space c); [destruct b|]; simpl; by rewrite ?Hsp, IH. }
  assert (Hstart : forall s, Str.trimStart (Str.map f s) = Str.map f (Str.trimStart s)).
  { clear s. intros s. induction s as [|c s IH]; simpl; [done|].
    rewrite Hf. by destruct (Str.is_space c). }
  assert (Hend : forall s, Str.trimEnd (Str.map f s) = Str.map f (Str.trimEnd s)).
  { clear s. intros s. induction s as [|c s IH]; simpl; [done|].
    rewrite Hf, IH, map_is_empty.
    by destruct (Str.is_space c && Str.is_empty (Str.trimEnd s)). }
  unfold Str.trim, Str.collapse. by rewrite Hcollapse, Hstart, Hend.
Qed.

(** ** Regular expressions: what a match tells *)

Lemma nullable_lang (r : Regex.t) : Regex.nullable r = true -> Regex.lang r "".
Proof.
  induction r as [| |p|r1 IH1 r2 IH2|r1 IH1 r2 IH2|r IH]; simpl; try done.
  - intros _. constructor.
  - intros [H1 H2]%andb_prop. apply (Regex.lang_cat r1 r2 "" ""); auto.
  - intros [H|H]%orb_prop; [apply Regex.lang_alt_l | apply Regex.lang_alt_r]; auto.
  - intros _. constructor.
Qed.

Lemma deriv_lang (c : ascii) (r : Regex.t) (s : string) :
  Regex.lang (Regex.deriv c r) s -> Regex.lang r (String c s).
Proof.
  revert s. induction r as [| |p|r1 IH1 r2 IH2|r1 IH1 r2 IH2|r IH]; simpl; intros s H.
  - inversion H.
  - inversion H.
  - destruct (p c) eqn:Hp; inversion H; subst. by constructor.
  - assert (Hcat : forall s, Regex.lang (Regex.Cat (Regex.deriv c r1) r2) s ->
                     Regex.lang (Regex.Cat r1 r2) (String c s)).
    { intros s' H'. inversion H' as [| |? ? s1 s2 H1 H2| | | |]; subst.
      apply (Regex.lang_cat r1 r2 (String c s1) s2); auto. }
    destruct (Regex.nullable r1) eqn:Hnull; [|auto].
    inversion H; subst; [auto|].
    apply (Regex.lang_cat r1 r2 "" (String c s)); [by apply nullable_lang | auto].
  - inversion H; subst; [apply Regex.lang_alt_l | apply Regex.lang_alt_r]; auto.
  - inversion H as [| |? ? s1 s2 H1 H2| | | |]; subst.
    apply (Regex.lang_star_cons r (String c s1) s2); auto.
Qed.

Lemma matches_lang (r : Regex.t) (s : string) :
  Regex.matches r s = true -> Regex.lang r s.
Proof.
  revert r. induction s as [|c s IH]; intros r; simpl.
  - apply nullable_lang.
  - intros H. by apply deriv_lang, IH.
Qed.

Lemma matches_prefix_lang (r : Regex.t) (s : string) :
  Regex.matches_prefix r s = true ->
  exists s1 s2 : string, s = (s1 ++ s2)%string /\ Regex.lang r s1.
Proof.
  revert r. induction s as [|c s IH]; intros r; simpl.
  - rewrite orb_false_r. intros H. exists "", "". split; [done|by apply nullable_lang].
  - intros [H|H]%orb_prop.
    + exists "", (String c s). split; [done|by apply nullable_lang].
    + destruct (IH _ H) as (s1 & s2 & -> & Hl).
      exists (String c s1), s2. split; [done|by apply deriv_lang].
Qed.

Lemma search_lang (r : Regex.t) (s : string) :
  Regex.search r s = true ->
  exists s0 s1 s2 : string, s = (s0 ++ s1 ++ s2)%string /\ Regex.lang r s1.
Proof.
  induction s as [|c s IH].
  - change (Regex.search r "") with (Regex.matches_prefix r "" || false).
    rewrite orb_false_r. intros (s1 & s2 & H & Hl)%matches_prefix_lang.
    by exists "", s1, s2.
  - change (Regex.search r (String c s))
      with (Regex.matches_prefix r (String c s) || Regex.search r s).
    intros [H|H]%orb_prop.
    + apply matches_prefix_lang in H as (s1 & s2 & H & Hl). by exists "", s1, s2.
    + destruct (IH H) as (s0 & s1 & s2 & -> & Hl). by exists (String c s0), s1, s2.
Qed.

(** *** Patterns under a character map *)

Lemma respects_deriv (f : ascii -> ascii) (r : Regex.t) (c : ascii) :
  respects f r -> respects f (Regex.deriv c r).
Proof.
  induction r as [| |p|r1 IH1 r2 IH2|r1 IH1 r2 IH2|r IH]; simpl; try done.
  - intros _. by destruct (p c).
  - intros [H1 H2]. destruct (Regex.nullable r1); simpl; auto.
  - intros [H1 H2]. auto.
  - intros H. auto.
Qed.

Lemma deriv_respects (f : ascii -> ascii) (r : Regex.t) (c : ascii) :
  respects f r -> Regex.deriv (f c) r = Regex.deriv c r.
Proof.
  induction r as [| |p|r1 IH1 r2 IH2|r1 IH1 r2 IH2|r IH]; simpl; try done.
  - intros H. by rewrite H.
  - intros [H1 H2]. by rewrite IH1, IH2.
  - intros [H1 H2]. by rewrite IH1, IH2.
  - intros H. by rewrite IH.
Qed.

Lemma matches_map (f : ascii -> ascii) (r : Regex.t) (s : string) :
  respects f r -> Regex.matches r (Str.map f s) = Regex.matches r s.
Proof.
  revert r. induction s as [|c s IH]; intros r Hr; simpl; [done|].
  rewrite deriv_respects by done. by apply IH, respects_deriv.
Qed.

Lemma matches_prefix_map (f : ascii -> ascii) (r : Regex.t) (s : string) :
  respects f r -> Regex.matches_prefix r (Str.map f s) = Regex.matches_prefix r s.
Proof.
  revert r. induction s as [|c s IH]; intros r Hr; simpl; [done|].
  rewrite deriv_respects by done. f_equal. by apply IH, respects_deriv.
Qed.

Lemma search_map (f : ascii -> ascii) (r : Regex.t) (s : string) :
  respects f r -> Regex.search r (Str.map f s) = Regex.search r s.
Proof.
  intros Hr. induction s as [|c s IH].
  - done.
  - change (Regex.search r (Str.map f (String c s)))
      with (Regex.matches_prefix r (Str.map f (String c s))
            || Regex.search r (Str.map f s)).
    change (Regex.search r (String c s))
      with (Regex.matches_prefix r (String c s) || Regex.search r s).
    by rewrite matches_prefix_map, IH.
Qed.

(** ** Characters *)

Ltac each_char c :=
  destruct c as [[] [] [] [] [] [] [] []]; vm_compute; (reflexivity || congruence).

Lemma upper_idemp (c : ascii) : Str.upper (Str.upper c) = Str.upper c.
Proof. each_char c. Qed.

Lemma upper_is_space (c : ascii) : Str.is_space (Str.upper c) = Str.is_space c.
Proof. each_char c. Qed.

Lemma upper_is_digit (c : ascii) : Str.is_digit (Str.upper c) = Str.is_digit c.
Proof. each_char c. Qed.

Lemma upper_is_dot (c : ascii) : Ascii.eqb "." (Str.upper c) = Ascii.eqb "." c.
Proof. each_char c. Qed.

Lemma upper_is_colon (c : ascii) : Ascii.eqb ":" (Str.upper c) = Ascii.eqb ":" c.
Proof. each_char c. Qed.

Lemma digit_time_char (c : ascii) : Str.is_digit c = true -> time_char c = true.
Proof. unfold time_char. by intros ->. Qed.

Lemma digit_nonblank (c : ascii) : Str.is_digit c = true -> nonblank c = true.
Proof. each_char c. Qed.

Lemma digit_not_dot (c : ascii) : Str.is_digit c = true -> Ascii.eqb c "." = false.
Proof. each_char c. Qed.

Lemma time_char_not_t (c : ascii) : time_char c = true -> is_t c = false.
Proof. each_char c. Qed.

Lemma time_char_not_dot (c : ascii) : time_char c = true -> Ascii.eqb "." c = false.
Proof. each_char c. Qed.

Lemma time_char_upper (c : ascii) : time_char (Str.upper c) = time_char c.
Proof. each_char c. Qed.

Lemma ampm_time_char (p q : ascii) :
  spells_ampm p q = true -> time_char p = true /\ time_char q = true.
Proof.
  unfold spells_ampm, time_char. intros [Hp Hq]%andb_prop. rewrite Hq.
  split; [|by rewrite !orb_true_r].
  apply orb_prop in Hp as [-> | ->]; by rewrite !orb_true_r.
Qed.

Lemma ampm_nonblank (p q : ascii) :
  spells_ampm p q = true -> nonblank p = true /\ nonblank q = true.
Proof.
  unfold spells_ampm. intros [Hp Hq]%andb_prop. split.
  - revert Hp. each_char p.
  - revert Hq. each_char q.
Qed.

(** *** The patterns of the time normaliser are blind to upper-casing *)

Ltac respects_upper :=
  cbn [respects Regex.seq Regex.opt Regex.plus Regex.digit Regex.space Regex.chr
       Regex.word Regex.ci];
  repeat match goal with
         | |- _ /\ _ => split
         | |- True => exact I
         | |- forall c : ascii, _ =>
             first [ exact upper_is_digit | exact upper_is_space
                   | exact upper_is_dot | exact upper_is_colon
                   | intros c; cbn beta; by rewrite upper_idemp ]
         end.

Lemma toRegex_upper : respects Str.upper toRegex.
Proof. unfold toRegex. respects_upper. Qed.

Lemma dottedRegex_upper : respects Str.upper dottedRegex.
Proof. unfold dottedRegex, ampm. respects_upper. Qed.

Lemma timeRegex_upper : respects Str.upper timeRegex.
Proof. unfold timeRegex, ampm. respects_upper. Qed.

(** *** What the patterns accept *)

Ltac invert_lang H := inversion H; subst; clear H.

Lemma lang_chr_inv (p : ascii -> bool) (s : string) :
  Regex.lang (Regex.Chr p) s -> exists c, s = String c "" /\ p c = true.
Proof. intros H. invert_lang H. eauto. Qed.

Lemma lang_star_chr (p : ascii -> bool) (s : string) :
  Regex.lang (Regex.Star (Regex.Chr p)) s -> Str.forallb p s = true.
Proof.
  intros H. remember (Regex.Star (Regex.Chr p)) as r eqn:Hr.
  induction H as [| | | | | r' | r' s1 s2 H1 _ H2 IH2]; try discriminate; [done|].
  injection Hr as ->. apply lang_chr_inv in H1 as (c & -> & Hc).
  simpl. rewrite Hc. by apply IH2.
Qed.

(** A text without the letter T has no "to". *)
Lemma search_to_absent (s : string) :
  Str.forallb (fun c => negb (is_t c)) s = true -> Regex.search toRegex s = false.
Proof.
  intros Hs. destruct (Regex.search toRegex s) eqn:Hsearch; [|done]. exfalso.
  apply search_lang in Hsearch as (s0 & s1 & s2 & -> & Hl).
  unfold toRegex in Hl. cbn [Regex.word] in Hl. unfold Regex.ci in Hl.
  inversion Hl as [| |? ? s3 s4 Ht Ho| | | |]; subst; clear Hl.
  apply lang_chr_inv in Ht as (c & -> & Hc). clear Ho.
  rewrite forallb_append in Hs. apply andb_prop in Hs as [_ Hs].
  simpl in Hs. apply andb_prop in Hs as [Hs _].
  unfold is_t in Hs. apply negb_true_iff in Hs.
  change (Str.upper "t") with "T"%char in Hc. congruence.
Qed.

Lemma lang_cat_inv (r1 r2 : Regex.t) (s : string) :
  Regex.lang (Regex.Cat r1 r2) s ->
  exists s1 s2 : string, s = (s1 ++ s2)%string /\ Regex.lang r1 s1 /\ Regex.lang r2 s2.
Proof. intros H. invert_lang H. eauto. Qed.

Lemma lang_alt_inv (r1 r2 : Regex.t) (s : string) :
  Regex.lang (Regex.Alt r1 r2) s -> Regex.lang r1 s \/ Regex.lang r2 s.
Proof. intros H. invert_lang H; auto. Qed.

Lemma lang_eps_inv (s : string) : Regex.lang Regex.Eps s -> s = "".
Proof. intros H. by invert_lang H. Qed.

Lemma lang_ampm (s : string) :
  Regex.lang ampm s ->
  exists p q, s = String p (String q "") /\ spells_ampm p q = true.
Proof.
  unfold ampm. cbn [Regex.word]. unfold Regex.ci.
  intros [H|H]%lang_alt_inv;
    apply lang_cat_inv in H as (s1 & s2 & -> & Hp & Hq);
    apply lang_chr_inv in Hp as (p & -> & Hp);
    apply lang_chr_inv in Hq as (q & -> & Hq);
    exists p, q; (split; [reflexivity|]); unfold spells_ampm;
    cbv beta in Hp, Hq.
  - change (Str.upper "A") with "A"%char in Hp.
    change (Str.upper "M") with "M"%char in Hq. by rewrite Hp, Hq.
  - change (Str.upper "P") with "P"%char in Hp.
    change (Str.upper "M") with "M"%char in Hq. by rewrite Hp, Hq, orb_true_r.
Qed.

(** The shape of a text the dotted pattern accepts. *)
Lemma dotted_shape (t : string) :
  Regex.matches dottedRegex t = true ->
  exists (d w : string) (b c p q : ascii),
    t = (d ++ String "." (String b (String c (w ++ String p (String q "")))))%string
    /\ Str.forallb Str.is_digit d = true
    /\ Str.is_digit b = true /\ Str.is_digit c = true
    /\ Str.forallb Str.is_space w = true
    /\ spells_ampm p q = true.
Proof.
  intros H. apply matches_lang in H. unfold dottedRegex in H.
  cbn [Regex.seq] in H.
  unfold Regex.opt, Regex.digit, Regex.space, Regex.chr in H.
  apply lang_cat_inv in H as (x1 & r1 & -> & Ha & H).
  apply lang_cat_inv in H as (x2 & r2 & -> & Ha' & H).
  apply lang_cat_inv in H as (x3 & r3 & -> & Hdot & H).
  apply lang_cat_inv in H as (x4 & r4 & -> & Hb & H).
  apply lang_cat_inv in H as (x5 & r5 & -> & Hc & H).
  apply lang_cat_inv in H as (w & r6 & -> & Hw & Hampm).
  apply lang_chr_inv in Ha as (a & -> & Ha).
  apply lang_chr_inv in Hdot as (dot & -> & Hdot).
  apply Ascii.eqb_eq in Hdot. subst dot.
  apply lang_chr_inv in Hb as (b & -> & Hb).
  apply lang_chr_inv in Hc as (c & -> & Hc).
  apply lang_star_chr in Hw.
  apply lang_ampm in Hampm as (p & q & -> & Hpq).
  apply lang_alt_inv in Ha' as [Ha'|Ha'].
  - apply lang_chr_inv in Ha' as (a' & -> & Ha').
    exists (String a (String a' "")), w, b, c, p, q. simpl. rewrite Ha, Ha'. done.
  - apply lang_eps_inv in Ha' as ->.
    exists (String a ""), w, b, c, p, q. simpl. rewrite Ha. done.
Qed.

Lemma forallb_impl (p q : ascii -> bool) (s : string) :
  (forall c, p c = true -> q c = true) ->
  Str.forallb p s = true -> Str.forallb q s = true.
Proof.
  intros Hpq. induction s as [|c s IH]; simpl; [done|].
  intros [Hc Hs]%andb_prop. by rewrite Hpq, IH.
Qed.

Lemma dotted_has_dot (s : string) :
  Regex.matches dottedRegex s = true ->
  Str.forallb (fun c => negb (Ascii.eqb "." c)) s = false.
Proof.
  intros (d & w & b & c & p & q & -> & _)%dotted_shape.
  rewrite forallb_append. simpl. apply andb_false_r.
Qed.

(** *** The rewriting of the dotted form *)

Lemma length_append (x y : string) :
  String.length (x ++ y) = (String.length x + String.length y)%nat.
Proof. induction x as [|c x IH]; simpl; congruence. Qed.

Lemma before_append (k : ascii) (d rest : string) :
  Str.forallb (fun c => negb (Ascii.eqb c k)) d = true ->
  Str.before k (d ++ String k rest) = d.
Proof.
  induction d as [|c d IH]; simpl.
  - by rewrite Ascii.eqb_refl.
  - intros [Hc Hd]%andb_prop. apply negb_true_iff in Hc. by rewrite Hc, IH.
Qed.

Lemma substring_skip (d x : string) (n m : nat) :
  String.substring (String.length d + n) m (d ++ x) = String.substring n m x.
Proof. induction d as [|c d IH]; simpl; [done|]. apply IH. Qed.

Lemma replace_dotted_shape (t d w : string) (b c p q : ascii) :
  t = (d ++ String "." (String b (String c (w ++ String p (String q "")))))%string ->
  Regex.matches dottedRegex t = true ->
  Str.forallb Str.is_digit d = true ->
  replace_dotted t
  = (d ++ String ":" (String b (String c (String " " (String p (String q ""))))))%string.
Proof.
  intros Ht Hm Hd. unfold replace_dotted. rewrite Hm. subst t.
  rewrite before_append
    by (eapply forallb_impl; [|exact Hd]; intros x Hx; by rewrite digit_not_dot).
  replace (S (String.length d)) with (String.length d + 1)%nat by lia.
  rewrite substring_skip.
  replace (d ++ String "." (String b (String c (w ++ String p (String q "")))))%string
    with ((d ++ String "." (String b (String c w))) ++ String p (String q ""))%string
    by (by rewrite append_assoc).
  rewrite length_append.
  replace (String.length (d ++ String "." (String b (String c w)))
           + String.length (String p (String q "")) - 2)%nat
    with (String.length (d ++ String "." (String b (String c w))) + 0)%nat
    by (simpl; lia).
  rewrite substring_skip. simpl.
  by replace (String.substring 0 0 (w ++ String p (String q ""))) with ""
    by (by destruct (w ++ String p (String q ""))%string).
Qed.

(** *** Texts the normaliser leaves alone *)

Lemma trimEnd_nonblank (y : string) :
  Str.forallb nonblank y = true -> Str.trimEnd y = y.
Proof.
  induction y as [|c y IH]; simpl; [done|].
  intros [Hc Hy]%andb_prop. apply negb_true_iff in Hc. by rewrite Hc, IH.
Qed.

Lemma trimEnd_append (x y : string) :
  Str.trimEnd y = y -> y <> "" -> Str.trimEnd (x ++ y) = (x ++ y)%string.
Proof.
  intros Hy Hne. induction x as [|c x IH]; simpl; [done|].
  rewrite IH. destruct (x ++ y)%string eqn:Hxy; [|by rewrite andb_false_r].
  destruct x; simpl in Hxy; congruence.
Qed.

Lemma single_spaced_nonblank (b : bool) (y : string) :
  Str.forallb nonblank y = true -> single_spaced b y = true.
Proof.
  revert b. induction y as [|c y IH]; intros b; simpl; [done|].
  intros [Hc Hy]%andb_prop. apply negb_true_iff in Hc. rewrite Hc. by apply IH.
Qed.

Lemma single_spaced_words (b : bool) (x y : string) :
  Str.forallb nonblank x = true -> x <> "" -> Str.forallb nonblank y = true ->
  single_spaced b (x ++ String " " y) = true.
Proof.
  intros Hx Hne Hy. revert b. induction x as [|c x IH]; intros b; [done|].
  simpl in Hx |- *. apply andb_prop in Hx as [Hc Hx]. apply negb_true_iff in Hc.
  rewrite Hc. destruct x as [|c' x]; [|by apply IH].
  simpl. by apply single_spaced_nonblank.
Qed.

(** Two non-empty words without blanks, one space between them. *)
Lemma squash_words (x y : string) :
  Str.forallb nonblank x = true -> x <> "" ->
  Str.forallb nonblank y = true -> y <> "" ->
  Str.trim (Str.collapse (x ++ String " " y)) = (x ++ String " " y)%string.
Proof.
  intros Hx Hxne Hy Hyne. apply squash_fixed.
  - by apply single_spaced_words.
  - destruct x as [|c x]; [done|]. simpl in Hx |- *.
    apply andb_prop in Hx as [Hc _]. exact Hc.
  - apply trimEnd_append; [|done].
    simpl. rewrite trimEnd_nonblank by done. by destruct y.
Qed.

Lemma normalizeText_fixed (s : string) :
  Str.trim (Str.collapse s) = s ->
  Regex.search toRegex s = false ->
  Regex.matches dottedRegex s = false ->
  (Regex.matches timeRegex s = true -> Str.toUpperCase s = s) ->
  normalizeText s = s.
Proof.
  intros Hsquash Hto Hdotted Hupper. unfold normalizeText, replace_dotted.
  rewrite Hsquash, Hto, Hdotted.
  destruct (Regex.matches timeRegex s); auto.
Qed.

(** A text made of time characters, in the shape of two words, is left
    alone as soon as upper-casing leaves it alone. *)
Lemma normalizeText_time_text (x y : string) :
  Str.forallb nonblank x = true -> x <> "" ->
  Str.forallb nonblank y = true -> y <> "" ->
  Str.forallb time_char (x ++ String " " y) = true ->
  (Regex.matches timeRegex (x ++ String " " y) = true ->
   Str.toUpperCase (x ++ String " " y) = (x ++ String " " y)%string) ->
  normalizeText (x ++ String " " y) = (x ++ String " " y)%string.
Proof.
  intros Hx Hxne Hy Hyne Htime Hupper. apply normalizeText_fixed.
  - by apply squash_words.
  - apply search_to_absent. eapply forallb_impl; [|exact Htime].
    intros c Hc. by rewrite time_char_not_t.
  - destruct (Regex.matches dottedRegex _) eqn:Hm; [|done].
    apply dotted_has_dot in Hm. rewrite <- Hm. symmetry.
    eapply forallb_impl; [|exact Htime].
    intros c Hc. by rewrite time_char_not_dot.
  - done.
Qed.

Lemma map_append (f : ascii -> ascii) (x y : string) :
  Str.map f (x ++ y) = (Str.map f x ++ Str.map f y)%string.
Proof. induction x as [|c x IH]; simpl; congruence. Qed.

Lemma toUpperCase_idemp (s : string) :
  Str.toUpperCase (Str.toUpperCase s) = Str.toUpperCase s.
Proof.
  unfold Str.toUpperCase. induction s as [|c s IH]; simpl; [done|].
  by rewrite upper_idemp, IH.
Qed.

Lemma upper_nonblank (c : ascii) : nonblank (Str.upper c) = nonblank c.
Proof. unfold nonblank. by rewrite upper_is_space. Qed.

(** The normaliser of texts is idempotent. *)
Lemma normalizeText_idemp (s : string) :
  normalizeText (normalizeText s) = normalizeText s.
Proof.
  unfold normalizeText at 2 3. set (t := Str.trim (Str.collapse s)).
  assert (Ht : Str.trim (Str.collapse t) = t) by apply squash_idemp.
  destruct (Regex.search toRegex t) eqn:Hto.
  { unfold normalizeText. by rewrite Ht, Hto. }
  destruct (Regex.matches dottedRegex t) eqn:Hd.
  - destruct (dotted_shape t Hd) as (d & w & b & c & p & q & Heq & Hdig & Hb & Hc & Hw & Hpq).
    set (x := (d ++ String ":" (String b (String c "")))%string).
    set (y := String p (String q "")).
    assert (Hr : replace_dotted t = (x ++ String " " y)%string).
    { rewrite (replace_dotted_shape t d w b c p q Heq Hd Hdig).
      unfold x, y. by rewrite append_assoc. }
    rewrite Hr.
    destruct (ampm_nonblank p q Hpq) as [Hpn Hqn].
    destruct (ampm_time_char p q Hpq) as [Hpt Hqt].
    assert (Hx : Str.forallb nonblank x = true).
    { unfold x. rewrite forallb_append. apply andb_true_intro. split.
      - eapply forallb_impl; [|exact Hdig]. apply digit_nonblank.
      - cbn [Str.forallb].
        rewrite (digit_nonblank b), (digit_nonblank c) by done. reflexivity. }
    assert (Hxne : x <> "") by (unfold x; by destruct d).
    assert (Hy : Str.forallb nonblank y = true)
      by (unfold y; cbn [Str.forallb]; by rewrite Hpn, Hqn).
    assert (Htime : Str.forallb time_char (x ++ String " " y) = true).
    { unfold x, y. rewrite !forallb_append. cbn [Str.forallb].
      rewrite (forallb_impl _ _ d digit_time_char Hdig).
      rewrite (digit_time_char b), (digit_time_char c), Hpt, Hqt by done.
      reflexivity. }
    destruct (Regex.matches timeRegex (x ++ String " " y)) eqn:Hclock.
    + unfold Str.toUpperCase. rewrite map_append.
      change (Str.map Str.upper (String " " y))
        with (String " " (Str.map Str.upper y)).
      apply normalizeText_time_text.
      * by rewrite forallb_map by apply upper_nonblank.
      * unfold x. by destruct d.
      * by rewrite forallb_map by apply upper_nonblank.
      * done.
      * change (String " " (Str.map Str.upper y))
          with (Str.map Str.upper (String " " y)).
        rewrite <- map_append. by rewrite forallb_map by apply time_char_upper.
      * intros _.
        change (String " " (Str.map Str.upper y))
          with (Str.map Str.upper (String " " y)).
        rewrite <- map_append. apply toUpperCase_idemp.
    + apply normalizeText_time_text; try done. congruence.
  - unfold replace_dotted. rewrite Hd.
    destruct (Regex.matches timeRegex t) eqn:Hclock.
    + apply normalizeText_fixed.
      * unfold Str.toUpperCase.
        rewrite squash_map by (apply upper_is_space || reflexivity). by rewrite Ht.
      * unfold Str.toUpperCase. by rewrite search_map by apply toRegex_upper.
      * unfold Str.toUpperCase. by rewrite matches_map by apply dottedRegex_upper.
      * intros _. apply toUpperCase_idemp.
    + apply normalizeText_fixed; try done. congruence.
Qed.

(** *** The texts [formatTime] produces *)

Lemma digit_char (k : N) :
  (k < 10)%N -> Str.is_digit (ascii_of_N (48 + k)) = true.
Proof.
  intros Hk.
  assert (Hcases : (k = 0 \/ k = 1 \/ k = 2 \/ k = 3 \/ k = 4 \/ k = 5 \/ k = 6
                    \/ k = 7 \/ k = 8 \/ k = 9)%N) by lia.
  repeat (destruct Hcases as [-> | Hcases]; [reflexivity | ]). by subst.
Qed.

Lemma digits_fuel_chars (fuel : nat) (n : N) (acc : string) :
  Str.forallb sign_or_digit acc = true ->
  Str.forallb sign_or_digit (Str.digits_fuel fuel n acc) = true.
Proof.
  revert n acc. induction fuel as [|fuel IH]; intros n acc Hacc; simpl; [done|].
  assert (Hstep : Str.forallb sign_or_digit
                    (String (ascii_of_N (48 + n mod 10)) acc) = true).
  { cbn [Str.forallb]. unfold sign_or_digit at 1.
    rewrite digit_char by (apply N.mod_upper_bound; lia). done. }
  destruct (n <? 10)%N; [done|]. by apply IH.
Qed.

Lemma of_Z_chars (z : Z) : Str.forallb sign_or_digit (Str.of_Z z) = true.
Proof.
  destruct z as [|p|p]; [done| |]; unfold Str.of_Z, Str.of_N.
  - by apply digits_fuel_chars.
  - cbn [Str.forallb]. by rewrite digits_fuel_chars.
Qed.

Lemma of_Z_nonempty (z : Z) : Str.of_Z z <> "".
Proof.
  assert (Hfuel : forall fuel n acc, acc <> "" -> Str.digits_fuel fuel n acc <> "").
  { induction fuel as [|fuel IH]; intros n acc Hacc; simpl; [done|].
    destruct (n <? 10)%N; [done|]. by apply IH. }
  destruct z as [|p|p]; [done| |done].
  unfold Str.of_Z, Str.of_N. simpl. destruct (_ <? 10)%N; [done|]. by apply Hfuel.
Qed.

Lemma padStart0_chars (n : nat) (s : string) :
  Str.forallb sign_or_digit s = true ->
  Str.forallb sign_or_digit (Str.padStart0 n s) = true.
Proof.
  intros Hs. unfold Str.padStart0. rewrite forallb_append, Hs, andb_true_r.
  induction (n - String.length s)%nat as [|k IH]; [done|]. simpl. exact IH.
Qed.

Lemma sign_or_digit_nonblank (c : ascii) : sign_or_digit c = true -> nonblank c = true.
Proof. each_char c. Qed.

Lemma sign_or_digit_clock (c : ascii) : sign_or_digit c = true -> clock_char c = true.
Proof. each_char c. Qed.

Lemma clock_char_time (c : ascii) : clock_char c = true -> time_char c = true.
Proof. each_char c. Qed.

Lemma clock_char_upper (c : ascii) : clock_char c = true -> Str.upper c = c.
Proof. each_char c. Qed.

(** [formatTime] yields a fixed point of the normaliser of texts. *)
Lemma normalizeText_formatTime (hh mm : Z) :
  normalizeText (formatTime hh mm) = formatTime hh mm.
Proof.
  unfold formatTime.
  set (h12 := Str.of_Z (if Z.rem hh 12 =? 0 then 12 else Z.rem hh 12)).
  set (pad := Str.padStart0 2 (Str.of_Z mm)).
  set (y := if 12 <=? hh then "PM" else "AM").
  assert (Hh : Str.forallb sign_or_digit h12 = true) by apply of_Z_chars.
  assert (Hp : Str.forallb sign_or_digit pad = true) by apply padStart0_chars, of_Z_chars.
  assert (Hyc : Str.forallb clock_char y = true) by (unfold y; by destruct (12 <=? hh)).
  assert (Hyn : Str.forallb nonblank y = true) by (unfold y; by destruct (12 <=? hh)).
  assert (Hyne : y <> "") by (unfold y; by destruct (12 <=? hh)).
  replace (h12 ++ ":" ++ pad ++ " " ++ y)%string
    with ((h12 ++ String ":" pad) ++ String " " y)%string
    by (by rewrite append_assoc).
  assert (Hx : Str.forallb sign_or_digit h12 = true
               -> Str.forallb nonblank (h12 ++ String ":" pad) = true).
  { intros _. rewrite forallb_append. cbn [Str.forallb].
    rewrite (forallb_impl _ _ h12 sign_or_digit_nonblank Hh).
    by rewrite (forallb_impl _ _ pad sign_or_digit_nonblank Hp). }
  assert (Hclock : Str.forallb clock_char ((h12 ++ String ":" pad) ++ String " " y) = true).
  { rewrite !forallb_append. cbn [Str.forallb].
    rewrite (forallb_impl _ _ h12 sign_or_digit_clock Hh).
    rewrite (forallb_impl _ _ pad sign_or_digit_clock Hp). by rewrite Hyc. }
  apply normalizeText_time_text; auto.
  - by destruct h12.
  - eapply forallb_impl; [|exact Hclock]. apply clock_char_time.
  - intros _. unfold Str.toUpperCase. eapply map_fixed; [|exact Hclock].
    apply clock_char_upper.
Qed.

Lemma normalizeNumber_formatTime (x : Num.number) (r : string) :
  normalizeNumber x = Some r -> exists hh mm, r = formatTime hh mm.
Proof.
  unfold normalizeNumber.
  destruct (_ && _); [intros [= <-]; eauto|].
  destruct (_ && _); [intros [= <-]; eauto|done].
Qed.

Lemma normalizeText_empty : normalizeText "" = "".
Proof. reflexivity. Qed.

Lemma normalizeTime_of_fixed (r : string) :
  normalizeText r = r -> normalizeTime (Text r) = r.
Proof. intros Hr. simpl. by destruct r. Qed.

(** C10: [normalizeTime] is idempotent.  Its result, a text, given back as
    a cell is returned as it is, whatever the cell it came from: a missing
    cell, a text or a number. *)
Theorem normalizeTime_idempotent (x : cell) :
  normalizeTime (Text (normalizeTime x)) = normalizeTime x.
Proof.
  apply normalizeTime_of_fixed. destruct x as [|s|n]; simpl.
  - reflexivity.
  - destruct (Str.is_empty s); [reflexivity|apply normalizeText_idemp].
  - destruct (if Num.isNaN n then None else normalizeNumber n) as [r|] eqn:Hnum.
    + assert (Hr : normalizeNumber n = Some r)
        by (destruct (Num.isNaN n); [discriminate|done]).
      apply normalizeNumber_formatTime in Hr as (hh & mm & ->).
      apply normalizeText_formatTime.
    + apply normalizeText_idemp.
Qed.

(** ** Texts given to the normaliser *)

(** C9: for every text [normalizeTime] returns a text: the empty text, the
    input with its blanks collapsed and trimmed, or that text with a dotted
    time rewritten, possibly upper-cased.  In particular "5:30 to 6:00 PM"
    comes back unchanged and "6.05pm" comes back as "6:05 PM". *)
Theorem normalizeTime_of_text :
  (forall s : string,
     exists r : string,
       normalizeTime (Text s) = r
       /\ let t := Str.trim (Str.collapse s) in
          r = "" \/ r = t \/ r = replace_dotted t
          \/ r = Str.toUpperCase (replace_dotted t))
  /\ normalizeTime (Text "5:30 to 6:00 PM") = "5:30 to 6:00 PM"
  /\ normalizeTime (Text "6.05pm") = "6:05 PM".
Proof.
  split; [|split; vm_compute; reflexivity].
  intros s. eexists. split; [reflexivity|]. cbn zeta.
  unfold normalizeTime. destruct (Str.is_empty s); [by left|].
  unfold normalizeText.
  destruct (Regex.search toRegex _); [right; left; reflexivity|].
  destruct (Regex.matches timeRegex _);
    [right; right; right; reflexivity | right; right; left; reflexivity].
Qed.

(** * Further properties of the parser *)

(** ** What one row does to the state *)

Lemma all_empty_not_closes (row : list cell) :
  all_empty row = true -> closes row = false.
Proof.
  unfold all_empty, closes, is_friday_marker, is_header, looksLikeRouteCode.
  intros [[[[H0 _]%andb_prop _]%andb_prop H3]%andb_prop _]%andb_prop.
  destruct (trimmed row 0); [|done]. destruct (trimmed row 3); [|done].
  vm_compute. reflexivity.
Qed.

Lemma opens_route_closes (row : list cell) :
  opens_route row = true -> closes row = true.
Proof.
  unfold opens_route, closes. intros [_ ->]%andb_prop. by rewrite !orb_true_r.
Qed.

(** A row that ends the route either opens the next one or clears the
    current route. *)
Lemma step_closes (st : State) (row : list cell) :
  closes row = true ->
  (opens_route row = true
   /\ current (step st row) = Some (length (heap st))
   /\ heap (step st row) = heap st ++ [new_route row])
  \/ (opens_route row = false
      /\ current (step st row) = None /\ heap (step st row) = heap st).
Proof.
  intros Hc.
  assert (Hall : all_empty row = false).
  { destruct (all_empty row) eqn:H; [|done].
    apply all_empty_not_closes in H. congruence. }
  unfold closes in Hc. unfold step, opens_route. rewrite Hall.
  destruct (is_friday_marker row); [right; done|].
  destruct (is_header row); [right; done|].
  simpl in Hc. rewrite Hc. left. done.
Qed.

(** A row that does not end the route extends the current route when its
    first cell is empty and changes nothing otherwise. *)
Lemma step_not_closes (st : State) (row : list cell) :
  closes row = false ->
  step st row
  = match current st with
    | Some ref =>
        if Str.is_empty (trimmed row 0) && negb (all_empty row) then
          {| mode := mode st; routesRegular := routesRegular st;
             routesFriday := routesFriday st; current := current st;
             heap := alter (extend (cell_at row 1) (cell_at row 4)) ref (heap st) |}
        else st
    | None => st
    end.
Proof.
  unfold closes. intros [[Hm Hh]%orb_false_elim Hl]%orb_false_elim.
  unfold step. rewrite Hm, Hh, Hl.
  destruct (all_empty row).
  - destruct (current st); [|done]. by rewrite andb_false_r.
  - destruct (current st); [|done]. by rewrite andb_true_r.
Qed.

Lemma all_empty_cells (row : list cell) :
  all_empty row = true ->
  Str.is_empty (trimmed row 0) = true
  /\ truthy (cell_at row 1) = false /\ truthy (cell_at row 4) = false.
Proof.
  unfold all_empty.
  intros [[[[H0 H1]%andb_prop _]%andb_prop _]%andb_prop H4]%andb_prop.
  by apply negb_true_iff in H1, H4.
Qed.

Lemma extend_identity (c1 c4 : cell) (r : Route) :
  identity (extend c1 c4 r) = identity r.
Proof. reflexivity. Qed.

Lemma finish_identity (r : Route) : identity (finish r) = identity r.
Proof. reflexivity. Qed.

(** ** The route a block of rows accumulates *)

(** An object that is not the current route stays as it is. *)
Lemma fold_step_frozen (post : list (list cell)) (st : State) (ref : nat) (r : Route) :
  heap st !! ref = Some r -> current st <> Some ref ->
  heap (fold_left step post st) !! ref = Some r.
Proof.
  revert st. induction post as [|row post IH]; intros st Hr Hcur; [done|].
  simpl. assert (Hlt : (ref < length (heap st))%nat) by (by eapply lookup_lt_Some).
  destruct (closes row) eqn:Hc.
  - destruct (step_closes st row Hc) as [(_ & Hcur' & Hheap)|(_ & Hcur' & Hheap)];
      apply IH; rewrite ?Hheap, ?Hcur'; try done.
    + by apply lookup_app_l_Some.
    + intros [= Heq]. lia.
  - rewrite (step_not_closes st row Hc).
    destruct (current st) as [cur|] eqn:Hcs; [|by apply IH; rewrite ?Hcs].
    destruct (_ && _); [|by apply IH; rewrite ?Hcs].
    apply IH; simpl; [|done].
    rewrite list_lookup_alter_ne; [done|]. congruence.
Qed.

(** The current route gathers the times of the rows that follow, up to the
    row that ends it. *)
Lemma fold_step_current (post : list (list cell)) (st : State) (ref : nat) (r : Route) :
  current st = Some ref -> heap st !! ref = Some r ->
  heap (fold_left step post st) !! ref
  = Some {| code := code r; name := name r; details := details r;
            toDSC := block_times 1 post (toDSC r);
            fromDSC := block_times 4 post (fromDSC r);
            display := display r |}.
Proof.
  revert st r. induction post as [|row post IH]; intros st r Hcur Hr.
  { simpl. rewrite Hr. by destruct r. }
  assert (Hlt : (ref < length (heap st))%nat) by (by eapply lookup_lt_Some).
  cbn [fold_left block_times]. destruct (closes row) eqn:Hc.
  - assert (Hr' : Some r = Some {| code := code r; name := name r; details := details r;
                                   toDSC := toDSC r; fromDSC := fromDSC r;
                                   display := display r |}) by (by destruct r).
    rewrite <- Hr'.
    destruct (step_closes st row Hc) as [(_ & Hcur' & Hheap)|(_ & Hcur' & Hheap)];
      apply fold_step_frozen; rewrite ?Hheap, ?Hcur'; try done.
    + by apply lookup_app_l_Some.
    + intros [= Heq]. lia.
  - rewrite (step_not_closes st row Hc), Hcur.
    destruct (all_empty row) eqn:Hall.
    + destruct (all_empty_cells row Hall) as (H0 & H1 & H4).
      rewrite andb_false_r, H0. unfold push_time. rewrite H1, H4.
      by apply IH.
    + rewrite andb_true_r. destruct (Str.is_empty (trimmed row 0)); [|by apply IH].
      rewrite (IH _ (extend (cell_at row 1) (cell_at row 4) r)); [done|done|].
      simpl. by rewrite list_lookup_alter_eq, Hr.
Qed.

(** ** The routes, in the order of the sheet *)

Lemma step_opens_current (st : State) (row : list cell) :
  opens_route row = true -> current (step st row) = Some (length (heap st)).
Proof.
  intros Hopen. pose proof (opens_route_closes row Hopen) as Hc.
  destruct (step_closes st row Hc) as [(_ & H & _)|(H & _)]; [done|congruence].
Qed.

Lemma fmap_alter_same {A B} (f : A -> B) (g : A -> A) (i : nat) (l : list A) :
  (forall x, f (g x) = f x) -> f <$> alter g i l = f <$> l.
Proof.
  intros Hfg. revert i. induction l as [|x l IH]; intros [|i]; simpl; try done.
  - by rewrite Hfg.
  - f_equal. apply IH.
Qed.

Lemma step_identities (st : State) (row : list cell) :
  opens_route row = false ->
  identity <$> heap (step st row) = identity <$> heap st.
Proof.
  intros Hopen. destruct (closes row) eqn:Hc.
  - destruct (step_closes st row Hc) as [(H & _)|(_ & _ & ->)]; [congruence|done].
  - rewrite (step_not_closes st row Hc).
    destruct (current st) as [ref|]; [|done]. destruct (_ && _); [|done].
    simpl. apply fmap_alter_same. intros r. apply extend_identity.
Qed.

(** The heap holds one object per route-opening row, in the order of the
    rows. *)
Lemma scan_identities (rows : list (list cell)) :
  identity <$> heap (scan rows) = row_identity <$> List.filter opens_route rows.
Proof.
  induction rows as [|row rows IH] using rev_ind; [done|].
  rewrite scan_snoc, List.filter_app. simpl.
  destruct (opens_route row) eqn:Hopen.
  - rewrite step_opens_heap by done. by rewrite !fmap_app, IH.
  - rewrite step_identities by done. by rewrite app_nil_r.
Qed.

Lemma scan_heap_length (rows : list (list cell)) :
  length (heap (scan rows)) = length (List.filter opens_route rows).
Proof.
  rewrite <- (length_fmap identity), scan_identities. by rewrite length_fmap.
Qed.

(** The two partitions hold every reference once, the regular ones before
    the Friday ones, and the Friday partition is empty while the mode is
    regular. *)
Lemma scan_refs (rows : list (list cell)) :
  routesRegular (scan rows) ++ routesFriday (scan rows)
  = seq 0 (length (heap (scan rows)))
  /\ (mode (scan rows) = regular_mode -> routesFriday (scan rows) = []).
Proof.
  induction rows as [|row rows [IH1 IH2]] using rev_ind; [done|].
  rewrite scan_snoc, step_routesRegular, step_routesFriday, step_heap_length, step_mode.
  destruct (opens_route row) eqn:Hopen.
  - assert (Hm : is_friday_marker row = false).
    { unfold opens_route in Hopen.
      apply andb_prop in Hopen as [[[_ H]%andb_prop _]%andb_prop _].
      by apply negb_true_iff in H. }
    rewrite Hm, seq_S. simpl.
    destruct (mode (scan rows)) eqn:Hmode.
    + rewrite IH2 in IH1 |- * by done. rewrite app_nil_r in IH1 |- *.
      by rewrite IH1.
    + split; [|done]. by rewrite app_assoc, IH1.
  - split; [by destruct (mode (scan rows))|].
    destruct (is_friday_marker row); [done|]. intros Hmode.
    destruct (mode (scan rows)); by auto.
Qed.

Lemma omap_lookup_seq {A B} (f : A -> B) (l : list A) :
  omap (fun i => f <$> l !! i) (seq 0 (length l)) = f <$> l.
Proof.
  induction l as [|x l IH] using rev_ind; [done|].
  rewrite length_app.
  replace (length l + length [x])%nat with (S (length l)) by (simpl; lia).
  rewrite seq_S, omap_app, fmap_app. simpl.
  rewrite lookup_app_r, Nat.sub_diag by lia. simpl. f_equal.
  rewrite <- IH. apply list_omap_ext, Forall2_same_length_lookup. split; [done|].
  intros i a b Ha Hb. simplify_eq. apply lookup_seq in Ha as [-> Hlt].
  by rewrite lookup_app_l.
Qed.

(** The routes [parseSchedule] returns, the regular ones followed by the
    Friday ones, are the objects of the heap after the closing pass. *)
Lemma parseSchedule_all (rows : list (list cell)) :
  regular (parseSchedule rows) ++ friday (parseSchedule rows)
  = finish <$> heap (scan rows).
Proof.
  unfold parseSchedule. simpl.
  rewrite !deref_finish_all
    by (intros x Hx; apply elem_of_app; (by left) || (by right)).
  rewrite <- omap_app. destruct (scan_refs rows) as [-> _].
  apply omap_lookup_seq.
Qed.

(** X1: [ingestWorkbook] stores in [state.all] the regular routes followed
    by the Friday routes, and these are, in the order of the sheet, one
    route per route-opening row, with the code, name and details of that
    row; a sheet without such a row gives no route. *)
Theorem ingestWorkbook_routes_in_sheet_order
    (a1 : cell) (rows : list (list cell)) (s : App.state) :
  let s' := ingestWorkbook a1 rows s in
  App.all s' = App.regular s' ++ App.friday s'
  /\ identity <$> App.all s' = row_identity <$> List.filter opens_route rows
  /\ (length (App.regular s') + length (App.friday s'))%nat
     = length (List.filter opens_route rows).
Proof.
  cbn zeta. unfold ingestWorkbook. cbn [App.all App.regular App.friday].
  split; [done|].
  assert (Hid : identity <$> regular (parseSchedule rows) ++ friday (parseSchedule rows)
                = row_identity <$> List.filter opens_route rows).
  { rewrite parseSchedule_all, <- list_fmap_compose, <- scan_identities.
    apply list_fmap_ext. intros i r _. apply finish_identity. }
  split; [done|].
  rewrite <- length_app, <- (length_fmap identity), Hid. by rewrite length_fmap.
Qed.

(** X2: the route a route-opening row yields holds the code, name and
    details of that row and, deduplicated, the times of that row followed
    by those of the later rows whose first cell is empty, up to the next
    Friday marker, header row or row that looks like a route code; it is
    the route at the position of the opening row among the opening rows. *)
Theorem route_of_block (pre post : list (list cell)) (o : list cell) :
  opens_route o = true ->
  let parsed := parseSchedule (pre ++ o :: post) in
  (regular parsed ++ friday parsed) !! length (List.filter opens_route pre)
  = Some (finish (block_route o post)).
Proof.
  intros Hopen. cbn zeta.
  rewrite parseSchedule_all, list_lookup_fmap, <- scan_heap_length.
  rewrite (scan_app pre (o :: post)). simpl.
  rewrite (fold_step_current post (step (scan pre) o) _ (new_route o)).
  - done.
  - by apply step_opens_current.
  - rewrite step_opens_heap by done.
    by rewrite lookup_app_r, Nat.sub_diag by lia.
Qed.

Lemma route_of_block_witness :
  (regular (parseSchedule classifier_rows) ++ friday (parseSchedule classifier_rows))
    !! length (List.filter opens_route [ [Text "Friday Schedule"]; [] ])
  = Some (finish (block_route
                    [Text "R1"; Text "08:00"; Text "Main Route"; Text "Via X";
                     Number (Num.lit 0.75)]
                    [ [Text ""; Text "09:00"; Text ""; Text ""; Number (Num.lit 0.8)] ])).
Proof.
  apply (route_of_block [ [Text "Friday Schedule"]; [] ]).
  vm_compute. reflexivity.
Defined.

(** ** After the Friday marker *)

(** The current route belongs to the partition the mode selects. *)
Lemma scan_current (rows : list (list cell)) (ref : nat) :
  current (scan rows) = Some ref ->
  match mode (scan rows) with
  | friday_mode => ref ∈ routesFriday (scan rows)
  | regular_mode => ref ∈ routesRegular (scan rows)
  end.
Proof.
  induction rows as [|row rows IH] using rev_ind; [done|].
  rewrite scan_snoc. intros Hcur.
  destruct (closes row) eqn:Hc.
  - destruct (step_closes (scan rows) row Hc) as [(Hopen & Hcur' & _)|(_ & Hcur' & _)];
      [|congruence].
    assert (Hm : is_friday_marker row = false).
    { unfold opens_route in Hopen.
      apply andb_prop in Hopen as [[[_ H]%andb_prop _]%andb_prop _].
      by apply negb_true_iff in H. }
    rewrite step_mode, Hm, step_routesFriday, step_routesRegular, Hopen.
    rewrite Hcur' in Hcur. injection Hcur as <-.
    destruct (mode (scan rows)); apply elem_of_app; right; by left.
  - assert (Hm : is_friday_marker row = false).
    { unfold closes in Hc. by apply orb_false_elim in Hc as [[? _]%orb_false_elim _]. }
    assert (Hopen : opens_route row = false).
    { destruct (opens_route row) eqn:H; [|done].
      apply opens_route_closes in H. congruence. }
    rewrite step_mode, Hm, step_routesFriday, step_routesRegular, Hopen.
    rewrite (step_not_closes _ _ Hc) in Hcur.
    assert (Hcur' : current (scan rows) = Some ref).
    { destruct (current (scan rows)) eqn:E; [destruct (_ && _)|];
        simpl in Hcur; congruence. }
    specialize (IH Hcur'). by destruct (mode (scan rows)).
Qed.

Lemma fold_step_friday_regular (post : list (list cell)) (st : State) :
  mode st = friday_mode ->
  routesRegular (fold_left step post st) = routesRegular st.
Proof.
  revert st. induction post as [|row post IH]; intros st Hmode; [done|].
  simpl. rewrite IH.
  - rewrite step_routesRegular, Hmode. by destruct (opens_route row).
  - rewrite step_mode, Hmode. by destruct (is_friday_marker row).
Qed.

(** X3: once a row has matched the Friday marker, the rows that follow
    never change the regular partition: no route is added to it and no
    time is added to one of its routes. *)
Theorem regular_partition_frozen_after_marker (pre post : list (list cell)) :
  Exists (fun row => is_friday_marker row = true) pre ->
  regular (parseSchedule (pre ++ post)) = regular (parseSchedule pre).
Proof.
  intros Hmarker%mode_friday_iff.
  unfold parseSchedule. simpl.
  rewrite !deref_finish_all by (intros x Hx; apply elem_of_app; by left).
  rewrite scan_app, fold_step_friday_regular by done.
  apply list_omap_ext, Forall2_same_length_lookup. split; [done|].
  intros i ref ref' Href Href'. simplify_eq. f_equal.
  assert (Hin : ref ∈ routesRegular (scan pre)) by (by eapply list_elem_of_lookup_2).
  assert (Hlt : (ref < length (heap (scan pre)))%nat).
  { apply refs_bounded, elem_of_app. by left. }
  destruct (lookup_lt_is_Some_2 _ _ Hlt) as [r Hr]. rewrite Hr.
  apply fold_step_frozen; [done|]. intros Hcur.
  pose proof (scan_current pre ref Hcur) as Hfri. rewrite Hmarker in Hfri.
  pose proof (NoDup_seq 0 (length (heap (scan pre)))) as Hnd.
  destruct (scan_refs pre) as [Hrefs _]. rewrite <- Hrefs in Hnd.
  apply NoDup_app in Hnd as (_ & Hdisj & _). by eapply Hdisj.
Qed.

Lemma regular_partition_frozen_witness :
  regular (parseSchedule
             ([ [Text "R1"; Text "7:00"]; [Text "Friday Schedule"] ]
              ++ [ [Text ""; Text "8:00"]; [Text "R2"; Text "9:00"] ]))
  = regular (parseSchedule [ [Text "R1"; Text "7:00"]; [Text "Friday Schedule"] ]).
Proof.
  apply regular_partition_frozen_after_marker.
  apply Exists_cons_tl, Exists_cons_hd. vm_compute. reflexivity.
Defined.

(** ** The code and the display label of a route *)

Lemma trim_no_leading (s : string) : no_leading_blank (Str.trim s) = true.
Proof. apply trimEnd_no_leading, trimStart_no_leading. Qed.

Lemma trim_trimEnd (s : string) : Str.trimEnd (Str.trim s) = Str.trim s.
Proof. apply trimEnd_idemp. Qed.

Lemma trim_fixed (s : string) :
  no_leading_blank s = true -> Str.trimEnd s = s -> Str.trim s = s.
Proof. intros Hlead Hend. unfold Str.trim. by rewrite trimStart_fixed. Qed.

Lemma no_leading_append (x y : string) :
  x <> "" -> no_leading_blank (x ++ y) = no_leading_blank x.
Proof. by destruct x. Qed.

(** The label the closing pass computes: its [trim] leaves it as it is,
    since the code and the name are trimmed and the code is not empty. *)
Lemma display_label (c n : string) :
  Str.trim (Str.trim c ++ (if Str.is_empty (Str.trim n) then "" else " — " ++ Str.trim n))
  = (Str.trim c ++ (if Str.is_empty (Str.trim n) then "" else " — " ++ Str.trim n))%string
  \/ Str.trim c = "".
Proof.
  destruct (Str.trim c) as [|a c'] eqn:Hc; [by right|]. left.
  rewrite <- Hc.
  assert (Hne : Str.trim c <> "") by (by rewrite Hc).
  destruct (Str.trim n) as [|b n'] eqn:Hn; simpl Str.is_empty; cbv iota.
  - rewrite append_nil_r. apply trim_fixed; [apply trim_no_leading|apply trim_trimEnd].
  - rewrite <- Hn. apply trim_fixed.
    + rewrite no_leading_append by done. apply trim_no_leading.
    + apply trimEnd_append.
      * apply (trimEnd_append " — " (Str.trim n)); [apply trim_trimEnd|by rewrite Hn].
      * done.
Qed.

Lemma routeCode_nonempty (s : string) :
  Regex.matches_prefix routeCodeRegex s = true -> s <> "".
Proof. intros H ->. vm_compute in H. discriminate H. Qed.

(** X4: every route [parseSchedule] returns has a code the route-code
    pattern accepts, hence a non-empty one, and its display label is the
    code alone when the name is empty and the code, a dash and the name
    otherwise. *)
Theorem route_code_and_display (rows : list (list cell)) (r : Route) :
  r ∈ regular (parseSchedule rows) ++ friday (parseSchedule rows) ->
  Regex.matches_prefix routeCodeRegex (code r) = true
  /\ code r <> ""
  /\ display r
     = Some (code r ++ (if Str.is_empty (name r) then "" else " — " ++ name r))%string.
Proof.
  rewrite parseSchedule_all. intros (acc & -> & Hacc)%list_elem_of_fmap.
  assert (Hid : identity acc ∈ row_identity <$> List.filter opens_route rows).
  { rewrite <- scan_identities. by apply list_elem_of_fmap_2. }
  apply list_elem_of_fmap in Hid as (row & Hid & Hrow).
  apply list_elem_of_In, filter_In in Hrow as [_ Hopen].
  injection Hid as Hcode Hname _.
  assert (Hlooks : looksLikeRouteCode row = true).
  { unfold opens_route in Hopen. by apply andb_prop in Hopen as [_ ?]. }
  unfold looksLikeRouteCode in Hlooks.
  assert (Hne : trimmed row 0 <> "") by (by apply routeCode_nonempty).
  change (display (finish acc))
    with (Some (Str.trim (code acc ++ (if Str.is_empty (name acc) then ""
                                       else " — " ++ name acc)))).
  change (code (finish acc)) with (code acc).
  change (name (finish acc)) with (name acc).
  rewrite Hcode, Hname. split; [done|]. split; [done|].
  unfold trimmed in *.
  destruct (display_label (text_of (cell_at row 0)) (text_of (cell_at row 2)))
    as [Heq|Hempty]; [by rewrite Heq | exfalso; by apply Hne].
Qed.

Lemma route_code_and_display_witness :
  Regex.matches_prefix routeCodeRegex "R1" = true
  /\ "R1" <> ""
  /\ Some "R1 — Main Route" = Some ("R1" ++ " — " ++ "Main Route")%string.
Proof.
  apply (route_code_and_display classifier_rows
           {| code := "R1"; name := "Main Route"; details := "Via X";
              toDSC := ["08:00"; "09:00"]; fromDSC := ["6:00 PM"; "7:12 PM"];
              display := Some "R1 — Main Route" |}).
  vm_compute. left.
Defined.

(** * [escapeHtml] *)

Lemma prefix_nil (s : string) : String.prefix "" s = true.
Proof. by destruct s. Qed.

Lemma escape_char_ordinary (c : ascii) :
  is_special c = false -> escape_char c = String c "".
Proof.
  unfold is_special, escape_char.
  intros [[[[-> ->]%orb_false_elim ->]%orb_false_elim ->]%orb_false_elim ->]%orb_false_elim.
  done.
Qed.

Lemma escape_char_cases (c : ascii) :
  (c = "&"%char /\ escape_char c = "&amp;")
  \/ (c = "<"%char /\ escape_char c = "&lt;")
  \/ (c = ">"%char /\ escape_char c = "&gt;")
  \/ (c = dquote /\ escape_char c = "&quot;")
  \/ (c = "'"%char /\ escape_char c = "&#39;")
  \/ (is_special c = false /\ escape_char c = String c "").
Proof.
  unfold escape_char, is_special.
  destruct (Ascii.eqb_spec c "&"); [auto|].
  destruct (Ascii.eqb_spec c "<"); [auto|].
  destruct (Ascii.eqb_spec c ">"); [auto 6|].
  destruct (Ascii.eqb_spec c dquote); [auto 7|].
  destruct (Ascii.eqb_spec c "'"); [auto 8|]. auto 10.
Qed.

Lemma ordinary_not_markup (c : ascii) :
  is_special c = false -> is_markup c = false /\ Ascii.eqb c "&" = false.
Proof.
  unfold is_special, is_markup.
  intros [[[[-> ->]%orb_false_elim ->]%orb_false_elim ->]%orb_false_elim ->]%orb_false_elim.
  done.
Qed.

(** X5: the text [escapeHtml] returns holds no [<], no [>], no double
    quote and no apostrophe, and every ampersand in it starts one of the
    entities [&amp;], [&lt;], [&gt;], [&quot;], [&#39;]. *)
Theorem escapeHtml_well_escaped (s : string) : well_escaped (escapeHtml s) = true.
Proof.
  induction s as [|c s IH]; [done|]. cbn [escapeHtml].
  destruct (escape_char_cases c)
    as [[-> ->]|[[-> ->]|[[-> ->]|[[-> ->]|[[-> ->]|[Hc ->]]]]]].
  - cbn. unfold entity_tail. cbn. by rewrite ?prefix_nil, ?orb_true_r, IH.
  - cbn. unfold entity_tail. cbn. by rewrite ?prefix_nil, ?orb_true_r, IH.
  - cbn. unfold entity_tail. cbn. by rewrite ?prefix_nil, ?orb_true_r, IH.
  - cbn. unfold entity_tail. cbn. by rewrite ?prefix_nil, ?orb_true_r, IH.
  - cbn. unfold entity_tail. cbn. by rewrite ?prefix_nil, ?orb_true_r, IH.
  - destruct (ordinary_not_markup c Hc) as [Hm Ha].
    cbn [append well_escaped]. by rewrite Ha, Hm, IH.
Qed.

Lemma unescape_ordinary (c : ascii) (rest : string) :
  Ascii.eqb c "&" = false -> unescapeHtml (String c rest) = String c (unescapeHtml rest).
Proof.
  intros Hc. destruct c as [[] [] [] [] [] [] [] []]; try reflexivity.
  discriminate Hc.
Qed.

Lemma unescape_escape (s : string) : unescapeHtml (escapeHtml s) = s.
Proof.
  induction s as [|c s IH]; [done|]. cbn [escapeHtml].
  destruct (escape_char_cases c)
    as [[-> ->]|[[-> ->]|[[-> ->]|[[-> ->]|[[-> ->]|[Hc ->]]]]]].
  - cbn. by rewrite IH.
  - cbn. by rewrite IH.
  - cbn. by rewrite IH.
  - cbn. by rewrite IH.
  - cbn. by rewrite IH.
  - destruct (ordinary_not_markup c Hc) as [_ Ha].
    cbn [append]. by rewrite unescape_ordinary, IH.
Qed.

(** X6: [escapeHtml] loses nothing: two texts with the same escaped form
    are the same text, and reading the five entities back gives the text
    that was escaped. *)
Theorem escapeHtml_injective (s1 s2 : string) :
  (escapeHtml s1 = escapeHtml s2 -> s1 = s2)
  /\ unescapeHtml (escapeHtml s1) = s1.
Proof.
  split; [|apply unescape_escape].
  intros H. by rewrite <- (unescape_escape s1), H, unescape_escape.
Qed.

Lemma escapeHtml_app (a b : string) :
  escapeHtml (a ++ b) = (escapeHtml a ++ escapeHtml b)%string.
Proof.
  induction a as [|c a IH]; [done|]. cbn [append escapeHtml].
  by rewrite IH, append_assoc.
Qed.

Lemma escapeHtml_length (s : string) :
  (String.length s <= String.length (escapeHtml s))%nat.
Proof.
  induction s as [|c s IH]; [done|]. cbn [escapeHtml]. rewrite length_append.
  destruct (escape_char_cases c)
    as [[-> ->]|[[-> ->]|[[-> ->]|[[-> ->]|[[-> ->]|[Hc ->]]]]]]; simpl; lia.
Qed.

(** X7: [escapeHtml] distributes over concatenation, and it returns a text
    unchanged exactly when the text holds none of the five characters it
    replaces. *)
Theorem escapeHtml_fixed_iff (a b : string) :
  escapeHtml (a ++ b) = (escapeHtml a ++ escapeHtml b)%string
  /\ (escapeHtml a = a <-> Str.forallb (fun c => negb (is_special c)) a = true).
Proof.
  split; [apply escapeHtml_app|]. split.
  - induction a as [|c a IH]; [done|]. cbn [escapeHtml Str.forallb].
    destruct (escape_char_cases c)
      as [[-> ->]|[[-> ->]|[[-> ->]|[[-> ->]|[[-> ->]|[Hc ->]]]]]].
    1-5: intros H; exfalso; apply (f_equal String.length) in H;
         cbn [append String.length] in H;
         pose proof (escapeHtml_length a); lia.
    intros [= H]. by rewrite Hc, IH.
  - induction a as [|c a IH]; [done|]. cbn [escapeHtml Str.forallb].
    intros [Hc Ha]%andb_prop. apply negb_true_iff in Hc.
    rewrite escape_char_ordinary by done. cbn [append]. by rewrite IH.
Qed.

(** * The filter, composed *)

(** X8: the two filters of [render] commute and can be applied one after
    the other; filtering twice is filtering once; with no code selected
    and an empty query the whole list is shown. *)
Theorem filters_compose (routes : list Route) (selectedCode query : string) :
  render_filtered (render_filtered routes selectedCode "") "" query
  = render_filtered routes selectedCode query
  /\ render_filtered (render_filtered routes "" query) selectedCode ""
     = render_filtered routes selectedCode query
  /\ render_filtered (render_filtered routes selectedCode query) selectedCode query
     = render_filtered routes selectedCode query
  /\ render_filtered routes "" "" = routes.
Proof.
  rewrite !render_filtered_keeps, !filter_filter.
  repeat split.
  - apply filter_ext. intros r. unfold keeps. simpl.
    by rewrite andb_true_r.
  - apply filter_ext. intros r. unfold keeps. simpl.
    by rewrite andb_true_r, andb_comm.
  - apply filter_ext. intros r. by destruct (keeps selectedCode query r).
  - by apply filter_all.
Qed.

(** X9: a route of the list is always found by selecting its own code, as
    the options of the route selector do, with an empty query. *)
Theorem own_code_selects_route (routes : list Route) (r : Route) :
  r ∈ routes ->
  r ∈ render_filtered routes (code r) ""
  /\ Forall (fun r' => code r = "" \/ code r' = code r)
       (render_filtered routes (code r) "").
Proof.
  intros Hin. rewrite render_filtered_keeps. split.
  - apply list_elem_of_In, filter_In. split; [by apply list_elem_of_In|].
    unfold keeps. by rewrite String.eqb_refl, orb_true_r.
  - apply Forall_forall. intros r' Hr'. apply list_elem_of_In, filter_In in Hr' as [_ Hk].
    unfold keeps in Hk. apply andb_prop in Hk as [Hk _].
    apply orb_prop in Hk as [Hk|Hk].
    + left. by apply is_empty_true.
    + right. by apply String.eqb_eq.
Qed.

Lemma own_code_selects_route_witness :
  {| code := "R2"; name := "Campus"; details := ""; toDSC := []; fromDSC := [];
     display := None |}
  ∈ render_filtered
      [ {| code := "R1"; name := "Main"; details := ""; toDSC := []; fromDSC := [];
           display := None |};
        {| code := "R2"; name := "Campus"; details := ""; toDSC := []; fromDSC := [];
           display := None |} ] "R2" "".
Proof.
  refine (proj1 (own_code_selects_route
                   [ {| code := "R1"; name := "Main"; details := ""; toDSC := [];
                        fromDSC := []; display := None |};
                     {| code := "R2"; name := "Campus"; details := ""; toDSC := [];
                        fromDSC := []; display := None |} ]
                   {| code := "R2"; name := "Campus"; details := ""; toDSC := [];
                      fromDSC := []; display := None |} _)).
  right. left.
Defined.

(** * [formatTime] over the minutes of a day *)

Lemma distinct_NoDup (l : list string) : distinct l = true -> NoDup l.
Proof.
  induction l as [|x l IH]; simpl; [constructor|].
  intros [Hx Hl]%andb_prop. apply negb_true_iff in Hx. constructor; [|auto].
  intros Hin. apply existsb_eqb_elem in Hin. congruence.
Qed.

Lemma clock_table_lookup (hh mm : Z) :
  0 <= hh < 24 -> 0 <= mm < 60 ->
  clock_table !! Z.to_nat (60 * hh + mm) = Some (formatTime hh mm).
Proof.
  intros Hhh Hmm. unfold clock_table. rewrite list_lookup_fmap.
  rewrite (proj2 (lookup_seq 0 1440 _ (Z.to_nat (60 * hh + mm)))) by (split; lia).
  assert (H1 : Z.of_nat (Z.to_nat (60 * hh + mm) / 60) = hh).
  { rewrite Nat2Z.inj_div, Z2Nat.id by lia. change (Z.of_nat 60) with 60.
    symmetry. apply (Z.div_unique _ _ _ mm); lia. }
  assert (H2 : Z.of_nat (Z.to_nat (60 * hh + mm) mod 60) = mm).
  { rewrite Nat2Z.inj_mod, Z2Nat.id by lia. change (Z.of_nat 60) with 60.
    symmetry. apply (Z.mod_unique _ _ hh); lia. }
  cbn [fmap option_fmap option_map Nat.add]. by rewrite H1, H2.
Qed.

Lemma clock_table_distinct : distinct clock_table = true.
Proof. vm_compute. reflexivity. Qed.

Lemma clock_table_recognised :
  forallb (Regex.matches timeRegex) clock_table = true.
Proof. vm_compute. reflexivity. Qed.

(** X10: for an hour from 0 to 23 and a minute from 0 to 59, [formatTime]
    gives a text the H:MM AM/PM pattern of the normaliser accepts, and two
    different times of day never get the same text. *)
Theorem formatTime_of_day (hh mm hh' mm' : Z) :
  0 <= hh < 24 -> 0 <= mm < 60 -> 0 <= hh' < 24 -> 0 <= mm' < 60 ->
  Regex.matches timeRegex (formatTime hh mm) = true
  /\ (formatTime hh mm = formatTime hh' mm' -> hh = hh' /\ mm = mm').
Proof.
  intros Hhh Hmm Hhh' Hmm'.
  pose proof (clock_table_lookup hh mm Hhh Hmm) as Hl.
  pose proof (clock_table_lookup hh' mm' Hhh' Hmm') as Hl'.
  split.
  - pose proof clock_table_recognised as Hall.
    rewrite forallb_forall in Hall. apply Hall.
    apply list_elem_of_In. by eapply list_elem_of_lookup_2.
  - intros Heq. rewrite <- Heq in Hl'.
    pose proof (NoDup_lookup _ _ _ _ (distinct_NoDup _ clock_table_distinct) Hl Hl').
    lia.
Qed.

Lemma formatTime_of_day_witness :
  Regex.matches timeRegex (formatTime 19 12) = true
  /\ (formatTime 19 12 = formatTime 7 12 -> 19 = 7 /\ 12 = 12).
Proof. apply formatTime_of_day; lia. Defined.

(** * Further properties of the time normaliser *)

Lemma normalizeTime_Text (s : string) : normalizeTime (Text s) = normalizeText s.
Proof. by destruct s. Qed.

(** The rewritten dotted form is made of two words of time characters. *)
Lemma replace_dotted_words (t : string) :
  Regex.matches dottedRegex t = true ->
  exists x y : string,
    replace_dotted t = (x ++ String " " y)%string
    /\ Str.forallb nonblank x = true /\ x <> ""
    /\ Str.forallb nonblank y = true /\ y <> ""
    /\ Str.forallb time_char (x ++ String " " y) = true.
Proof.
  intros Hd.
  destruct (dotted_shape t Hd) as (d & w & b & c & p & q & Heq & Hdig & Hb & Hc & Hw & Hpq).
  destruct (ampm_nonblank p q Hpq) as [Hpn Hqn].
  destruct (ampm_time_char p q Hpq) as [Hpt Hqt].
  exists (d ++ String ":" (String b (String c "")))%string, (String p (String q "")).
  split; [|split; [|split; [|split; [|split]]]].
  - rewrite (replace_dotted_shape t d w b c p q Heq Hd Hdig). by rewrite append_assoc.
  - rewrite forallb_append. apply andb_true_intro. split.
    + eapply forallb_impl; [|exact Hdig]. apply digit_nonblank.
    + cbn [Str.forallb].
      rewrite (digit_nonblank b), (digit_nonblank c) by done. reflexivity.
  - by destruct d.
  - cbn [Str.forallb]. by rewrite Hpn, Hqn.
  - done.
  - rewrite !forallb_append. cbn [Str.forallb].
    rewrite (forallb_impl _ _ d digit_time_char Hdig).
    rewrite (digit_time_char b), (digit_time_char c), Hpt, Hqt by done.
    reflexivity.
Qed.

(** What the normaliser of texts returns is collapsed and trimmed. *)
Lemma normalizeText_squashed (s : string) :
  Str.trim (Str.collapse (normalizeText s)) = normalizeText s.
Proof.
  unfold normalizeText. set (t := Str.trim (Str.collapse s)).
  assert (Ht : Str.trim (Str.collapse t) = t) by apply squash_idemp.
  destruct (Regex.search toRegex t); [done|].
  assert (Hr : Str.trim (Str.collapse (replace_dotted t)) = replace_dotted t).
  { destruct (Regex.matches dottedRegex t) eqn:Hd.
    - destruct (replace_dotted_words t Hd) as (x & y & -> & Hx & Hxne & Hy & Hyne & _).
      by apply squash_words.
    - unfold replace_dotted. by rewrite Hd. }
  destruct (Regex.matches timeRegex (replace_dotted t)); [|done].
  unfold Str.toUpperCase.
  rewrite squash_map by (apply upper_is_space || reflexivity). by rewrite Hr.
Qed.

(** X11: what [normalizeTime] returns has no blank at either end and no
    blank other than single spaces, whatever the cell; and a text is
    normalised as the same text with its blanks collapsed and trimmed, so
    texts that differ only in their blanks get the same result. *)
Theorem normalizeTime_blanks :
  (forall x : cell,
     Str.trim (Str.collapse (normalizeTime x)) = normalizeTime x
     /\ single_spaced false (normalizeTime x) = true
     /\ no_leading_blank (normalizeTime x) = true
     /\ Str.trimEnd (normalizeTime x) = normalizeTime x)
  /\ (forall s : string,
        normalizeTime (Text (Str.trim (Str.collapse s))) = normalizeTime (Text s)).
Proof.
  split.
  - intros x.
    assert (Hfix : normalizeText (normalizeTime x) = normalizeTime x).
    { destruct x as [|s|n]; cbn [normalizeTime].
      - reflexivity.
      - destruct (Str.is_empty s); [reflexivity|apply normalizeText_idemp].
      - destruct (if Num.isNaN n then None else normalizeNumber n) as [r|] eqn:Hnum.
        + assert (Hr : normalizeNumber n = Some r)
            by (destruct (Num.isNaN n); [discriminate|done]).
          apply normalizeNumber_formatTime in Hr as (hh & mm & ->).
          apply normalizeText_formatTime.
        + apply normalizeText_idemp. }
    assert (Hsq : Str.trim (Str.collapse (normalizeTime x)) = normalizeTime x).
    { rewrite <- Hfix at 1. rewrite normalizeText_squashed. exact Hfix. }
    split; [exact Hsq|]. rewrite <- Hsq. unfold Str.trim, Str.collapse.
    split; [|split].
    + apply trimEnd_single_spaced, (trimStart_single_spaced false),
        collapse_single_spaced.
    + apply trimEnd_no_leading, trimStart_no_leading.
    + apply trimEnd_idemp.
  - intros s. rewrite !normalizeTime_Text. unfold normalizeText.
    by rewrite squash_idemp.
Qed.

(** ** Numbers outside the two ranges *)

Lemma forallb_substring (p : ascii -> bool) (n m : nat) (s : string) :
  Str.forallb p s = true -> Str.forallb p (String.substring n m s) = true.
Proof.
  revert n m. induction s as [|c s IH]; intros n m Hs.
  - by destruct n, m.
  - simpl in Hs. apply andb_prop in Hs as [Hc Hs].
    destruct n as [|n]; [destruct m as [|m]|]; simpl; [done| |by apply IH].
    rewrite Hc. by apply IH.
Qed.

Lemma forallb_repeat (p : ascii -> bool) (c : ascii) (n : nat) :
  p c = true -> Str.forallb p (Str.repeat c n) = true.
Proof. intros Hc. induction n as [|n IH]; simpl; [done|]. by rewrite Hc, IH. Qed.

Lemma sign_or_digit_number (c : ascii) : sign_or_digit c = true -> number_char c = true.
Proof. each_char c. Qed.

Lemma of_Z_number_chars (z : Z) : Str.forallb number_char (Str.of_Z z) = true.
Proof. eapply forallb_impl; [apply sign_or_digit_number|apply of_Z_chars]. Qed.

Lemma positive_toString_chars (m e : Z) :
  Str.forallb number_char (Num.positive_toString m e) = true.
Proof.
  unfold Num.positive_toString.
  destruct (Num.shortest _ _ _ _ _) as [s k].
  set (digits := Str.of_Z (Num.strip_zeros 25 s)).
  assert (Hd : Str.forallb number_char digits = true) by apply of_Z_number_chars.
  assert (Hz : forall n, Str.forallb number_char (Num.zeros n) = true)
    by (intros n; by apply forallb_repeat).
  assert (He : forall n, Str.forallb number_char (Num.exponent_part n) = true).
  { intros n. unfold Num.exponent_part. rewrite !forallb_append, of_Z_number_chars.
    by destruct (_ <? _). }
  repeat match goal with
         | |- context [if ?b then _ else _] => destruct b
         end;
    rewrite ?forallb_append, ?Hd, ?Hz, ?He, ?forallb_substring by done; done.
Qed.

Lemma toString_chars (x : Num.number) :
  Str.forallb number_char (Num.toString x) = true.
Proof.
  destruct x as [s|s| |s m e]; try done; [by destruct s|]. unfold Num.toString.
  rewrite forallb_append, positive_toString_chars. by destruct s.
Qed.

Lemma number_char_nonblank (c : ascii) : number_char c = true -> nonblank c = true.
Proof. each_char c. Qed.

Lemma number_char_not_o (c : ascii) :
  number_char c = true -> Ascii.eqb (Str.upper c) "O" = false.
Proof. each_char c. Qed.

Lemma number_char_not_m (c : ascii) :
  number_char c = true -> Ascii.eqb (Str.upper c) "M" = false.
Proof. each_char c. Qed.

Lemma number_char_not_colon (c : ascii) :
  number_char c = true -> Ascii.eqb ":" c = false.
Proof. each_char c. Qed.

(** A text without blanks is collapsed and trimmed. *)
Lemma squash_nonblank (s : string) :
  Str.forallb nonblank s = true -> Str.trim (Str.collapse s) = s.
Proof.
  intros Hs. apply squash_fixed.
  - by apply single_spaced_nonblank.
  - destruct s as [|c s]; [done|]. simpl in Hs |- *.
    by apply andb_prop in Hs as [Hc _].
  - by apply trimEnd_nonblank.
Qed.

(** A text without the letter O has no "to". *)
Lemma search_to_absent_o (s : string) :
  Str.forallb (fun c => negb (Ascii.eqb (Str.upper c) "O")) s = true ->
  Regex.search toRegex s = false.
Proof.
  intros Hs. destruct (Regex.search toRegex s) eqn:Hsearch; [|done]. exfalso.
  apply search_lang in Hsearch as (s0 & s1 & s2 & -> & Hl).
  unfold toRegex in Hl. cbn [Regex.word] in Hl. unfold Regex.ci in Hl.
  apply lang_cat_inv in Hl as (x1 & x2 & -> & _ & Ho).
  apply lang_chr_inv in Ho as (c & -> & Hc).
  rewrite !forallb_append in Hs.
  apply andb_prop in Hs as [_ [[_ Hs]%andb_prop _]%andb_prop].
  simpl in Hs. rewrite andb_true_r in Hs. apply negb_true_iff in Hs.
  change (Str.upper "o") with "O"%char in Hc. congruence.
Qed.

(** A text the dotted pattern accepts ends with the letter M. *)
Lemma dotted_has_m (s : string) :
  Regex.matches dottedRegex s = true ->
  Str.forallb (fun c => negb (Ascii.eqb (Str.upper c) "M")) s = false.
Proof.
  intros (d & w & b & c & p & q & -> & _ & _ & _ & _ & Hpq)%dotted_shape.
  unfold spells_ampm in Hpq. apply andb_prop in Hpq as [_ Hq].
  rewrite forallb_append. cbn [Str.forallb]. rewrite forallb_append.
  cbn [Str.forallb]. rewrite Hq. cbn [negb andb]. by rewrite !andb_false_r.
Qed.

(** A text the H:MM pattern accepts holds a colon. *)
Lemma time_has_colon (s : string) :
  Regex.matches timeRegex s = true ->
  Str.forallb (fun c => negb (Ascii.eqb ":" c)) s = false.
Proof.
  intros H. apply matches_lang in H. unfold timeRegex in H.
  cbn [Regex.seq] in H. unfold Regex.chr in H.
  apply lang_cat_inv in H as (x1 & r1 & -> & _ & H).
  apply lang_cat_inv in H as (x2 & r2 & -> & _ & H).
  apply lang_cat_inv in H as (x3 & r3 & -> & Hcolon & _).
  apply lang_chr_inv in Hcolon as (c & -> & Hc).
  rewrite !forallb_append. cbn [Str.forallb]. rewrite Hc.
  cbn [negb andb]. by rewrite !andb_false_r.
Qed.

Lemma normalizeText_number_text (s : string) :
  Str.forallb number_char s = true -> normalizeText s = s.
Proof.
  intros Hs. apply normalizeText_fixed.
  - apply squash_nonblank. eapply forallb_impl; [|exact Hs]. apply number_char_nonblank.
  - apply search_to_absent_o. eapply forallb_impl; [|exact Hs].
    intros c Hc. by rewrite number_char_not_o.
  - destruct (Regex.matches dottedRegex s) eqn:Hm; [|done].
    apply dotted_has_m in Hm. rewrite <- Hm. symmetry.
    eapply forallb_impl; [|exact Hs]. intros c Hc. by rewrite number_char_not_m.
  - intros Hm. apply time_has_colon in Hm. exfalso.
    rewrite (forallb_impl number_char _ s) in Hm; [done| |done].
    intros c Hc. by rewrite number_char_not_colon.
Qed.

(** X12: a number outside both ranges (negative, exactly 1, 24 or more,
    an infinity or NaN) is returned as the text [Number::toString] gives
    for it, unchanged. *)
Theorem normalizeTime_number_outside_ranges (t : Num.number) :
  Num.leb (Num.of_Z 0) t && Num.ltb t (Num.of_Z 1) = false ->
  Num.ltb (Num.of_Z 1) t && Num.ltb t (Num.of_Z 24) = false ->
  normalizeTime (Number t) = Num.toString t.
Proof.
  intros Hday Hhours. unfold normalizeTime, normalizeNumber.
  rewrite Hday, Hhours. destruct (Num.isNaN t);
    apply normalizeText_number_text, toString_chars.
Qed.

Lemma normalizeTime_number_outside_ranges_witness :
  normalizeTime (Number (Num.lit 24.5)) = Num.toString (Num.lit 24.5)
  /\ normalizeTime (Number (Num.of_Z 1)) = Num.toString (Num.of_Z 1)
  /\ normalizeTime (Number (Num.lit (-0.25))) = Num.toString (Num.lit (-0.25)).
Proof.
  split; [|split]; apply normalizeTime_number_outside_ranges; vm_compute; reflexivity.
Defined.

Example number_outside_ranges_examples :
  normalizeTime (Number (Num.lit 24.5)) = "24.5"
  /\ normalizeTime (Number (Num.of_Z 1)) = "1"
  /\ normalizeTime (Number (Num.lit (-0.25))) = "-0.25"
  /\ normalizeTime (Number S754_nan) = "NaN".
Proof. vm_compute. done. Qed.

(** * Rows the parser passes over *)

Lemma fold_step_without_blank_rows (rows : list (list cell)) (st : State) :
  fold_left step (without_blank_rows rows) st = fold_left step rows st.
Proof.
  revert st. induction rows as [|row rows IH]; intros st; [done|].
  unfold without_blank_rows. cbn [List.filter fold_left].
  destruct (all_empty row) eqn:He; cbn [negb].
  - replace (step st row) with st by (unfold step; by rewrite He). apply IH.
  - cbn [fold_left]. apply IH.
Qed.

(** X13: blank rows are passed over wherever they stand, also between the
    rows of one route: the sheet without them parses to the same schedule. *)
Theorem blank_rows_are_ignored (rows : list (list cell)) :
  parseSchedule (without_blank_rows rows) = parseSchedule rows.
Proof.
  unfold parseSchedule, scan. by rewrite fold_step_without_blank_rows.
Qed.

Lemma step_preamble (row : list cell) :
  preamble_row row = true -> step initial row = initial.
Proof.
  unfold preamble_row, opens_route, step.
  destruct (all_empty row); [done|].
  destruct (is_friday_marker row); [by rewrite andb_false_r|].
  destruct (is_header row); [done|].
  by destruct (looksLikeRouteCode row).
Qed.

Lemma scan_preamble (pre : list (list cell)) :
  forallb preamble_row pre = true -> scan pre = initial.
Proof.
  unfold scan. induction pre as [|row pre IH]; [done|].
  cbn [forallb fold_left]. intros [Hrow Hpre]%andb_prop.
  rewrite step_preamble by done. by apply IH.
Qed.

(** X14: the rows above the first route change nothing as long as none of
    them is the Friday marker: titles, headers and times without a route
    are dropped, and the sheet parses as the rows that follow them. *)
Theorem preamble_is_dropped (pre rest : list (list cell)) :
  forallb preamble_row pre = true ->
  parseSchedule (pre ++ rest) = parseSchedule rest.
Proof.
  intros Hpre. unfold parseSchedule. rewrite scan_app, scan_preamble by done.
  reflexivity.
Qed.

Lemma preamble_is_dropped_witness :
  forallb preamble_row
    [[Text "Transport Schedule"];
     [Text "Route No"; Text "Start"; Text "Route Name"; Text "Route Details"; Text "Departure"];
     [Text ""; Text "7:00 AM"; Text ""; Text ""; Text "1:00 PM"]] = true
  /\ parseSchedule
       ([[Text "Transport Schedule"];
         [Text "Route No"; Text "Start"; Text "Route Name"; Text "Route Details"; Text "Departure"];
         [Text ""; Text "7:00 AM"; Text ""; Text ""; Text "1:00 PM"]]
        ++ [opening_row])
     = parseSchedule [opening_row].
Proof.
  split; [vm_compute; reflexivity|].
  apply preamble_is_dropped. vm_compute. reflexivity.
Defined.
